(** * AlgorithmVisualizer: the step player of src/pages/components/algoVisualizer.tsx

    A shallow embedding of the React component [AlgorithmVisualizer]: its
    static metadata table, its two [useState] cells, the four event
    handlers, the autoplay [useEffect] with its interval, and the element
    tree the component returns.

    Conventions.
    - [currentStepIndex] and [steps.length] are JavaScript numbers that the
      code only ever moves by one from 0, so they are integers here ([Z]);
      [steps.length - 1] is [-1] for the empty array, as in the source.
    - [steps] is a [list]; reading [steps[i]] out of range gives
      [undefined] in JavaScript, [None] here.
    - A JavaScript object used as a table is a [gmap string _] for its own
      properties; a property read that misses them continues on
      [Object.prototype], as the language prescribes.
    - A handler is a closure over the values of the render that created
      it; what it does when called is the list of [setState] calls it
      makes, which is how it is represented. *)

From stdpp Require Import gmap strings list.

Local Open Scope string_scope.
Local Open Scope Z_scope.
Local Set Warnings "-register-all".

(** ** The metadata table (lines 10-79) *)

Record AlgorithmInfo := {
  description : string;
  timeComplexity : string;
  spaceComplexity : string;
}.

Definition algorithmInfoEntries : list (string * AlgorithmInfo) :=
  [
    ("Linear Search",
     {| description := "Linear Search scans each element of the array 
        one by one until the target value is found. It works for 
        both sorted and unsorted arrays.";
        timeComplexity := "0(n)";
        spaceComplexity := "0(1)" |});
    ("Binary Search",
     {| description := "Binary Search works by repeatedly dividing a 
        sorted array in half and comparing the middle element with
        the target value. If the target is smaller, the left half 
        is considered; if larger, the right half is considered.";
        timeComplexity := "0(log n)";
        spaceComplexity := "0(1)" |});
    ("Depth-First Search",
     {| description := "Depth-First Search (DFS) explores as far as 
        possible along a branch before backtracking. It's commonly 
        used for tree and graph traversals.";
        timeComplexity := "0(V + E) (V: vertices, E: edges)";
        spaceComplexity := "0(V) for recursive DFS due to the call stack" |});
    ("Breadth-First Search",
     {| description := "Breadth-First Search (BFS) explores all the neighbor 
        nodes at the present depth before moving on to nodes at the next depth 
        level. It's often used for shortest path problems in unweighted graphs.";
        timeComplexity := "0(V + E) (V: vertices, E: edges)";
        spaceComplexity := "0(V) for storing nodes in the queue" |});
    ("Bubble Sort",
     {| description := "Bubble Sort compares adjacent elements in an array and 
        swaps them if they are in the wrong order. It repeats this process 
        until the array is sorted.";
        timeComplexity := "0(n^2)";
        spaceComplexity := "0(1)" |});
    ("Selection Sort",
     {| description := "Selection Sort repeatedly finds the minimum element from 
        the unsorted part of the array and swaps it with the first unsorted element, 
        moving the boundary of the sorted part.";
        timeComplexity := "0(n^2)";
        spaceComplexity := "0(1)" |});
    ("Insertion Sort",
     {| description := "Insertion Sort builds the sorted array one element at a time 
        by picking elements and inserting them into their correct position in the 
        already sorted part.";
        timeComplexity := "0(n^2)";
        spaceComplexity := "0(1)" |});
    ("Merge Sort",
     {| description := "Merge Sort divides the array into two halves, 
        recursively sorts each half, and then merges the two halves 
        back together in sorted order.";
        timeComplexity := "0(n log n)";
        spaceComplexity := "0(n) due to the extra space for the temporary arrays used during merging" |});
    ("Quick Sort",
     {| description := "Quick Sort picks a pivot element, partitions the array around the pivot, 
        and recursively sorts the partitions. It works efficiently in average cases but can 
        degrade in performance in certain cases.";
        timeComplexity := "0(n log n) (average), 0(n^2) (worst case)";
        spaceComplexity := "0(log n) for the recursion stack (best case), 0(n) (worst case)" |})
  ].

Definition algorithmInfo : gmap string AlgorithmInfo :=
  list_to_map algorithmInfoEntries.

(** The object literal inherits from [Object.prototype]; these are the
    property names every such object answers to (ECMAScript, with the
    legacy names of its Annex B). *)
Definition objectPrototypeNames : list string :=
  [ "constructor"; "hasOwnProperty"; "isPrototypeOf"; "propertyIsEnumerable";
    "toLocaleString"; "toString"; "valueOf"; "__proto__";
    "__defineGetter__"; "__defineSetter__";
    "__lookupGetter__"; "__lookupSetter__" ].

(** What [algorithmInfo[algorithm]] can evaluate to. *)
Inductive Selected :=
| SelUndefined
| SelInfo (info : AlgorithmInfo)
| SelInherited (name : string).

Definition inheritedName (name : string) : bool :=
  existsb (String.eqb name) objectPrototypeNames.

(** The property read [o[key]]: own properties first, then the prototype. *)
Definition getProperty (o : gmap string AlgorithmInfo) (key : string) : Selected :=
  match o !! key with
  | Some info => SelInfo info
  | None => if inheritedName key then SelInherited key else SelUndefined
  end.

(** JavaScript truthiness of the value read: only [undefined] is falsy. *)
Definition truthy (v : Selected) : bool :=
  match v with
  | SelUndefined => false
  | SelInfo _ | SelInherited _ => true
  end.

(** [selectedAlgo.f]: the members of [Object.prototype] are functions (or
    the prototype itself) and carry none of the three fields. *)
Definition field (f : AlgorithmInfo -> string) (v : Selected) : option string :=
  match v with
  | SelInfo info => Some (f info)
  | SelInherited _ | SelUndefined => None
  end.

(** ** Playback state: the two [useState] cells (lines 87-88) *)

Record PlaybackState := {
  currentStepIndex : Z;
  isPlaying : bool;
}.

Definition initialState : PlaybackState :=
  {| currentStepIndex := 0; isPlaying := false |}.

(** A call of one of the two state setters. *)
Inductive SetState :=
| setCurrentStepIndex (v : Z)
| setIsPlaying (b : bool).

Definition applySetState (s : PlaybackState) (u : SetState) : PlaybackState :=
  match u with
  | setCurrentStepIndex v => {| currentStepIndex := v; isPlaying := isPlaying s |}
  | setIsPlaying b => {| currentStepIndex := currentStepIndex s; isPlaying := b |}
  end.

(** The setter calls of one handler run are batched into one update. *)
Definition applyAll (us : list SetState) (s : PlaybackState) : PlaybackState :=
  foldl applySetState s us.

#[global] Instance PlaybackState_eq_dec : EqDecision PlaybackState.
Proof. solve_decision. Defined.

(** ** The element tree a render returns *)

(** The attributes the component sets on its elements. [onClick] holds the
    setter calls the handler closure makes when it is invoked. *)
Record Attrs := {
  className : option string;
  onClick : option (list SetState);
  disabled : option bool;
}.

Definition noAttrs : Attrs :=
  {| className := None; onClick := None; disabled := None |}.

Definition classed (c : string) : Attrs :=
  {| className := Some c; onClick := None; disabled := None |}.

Section Component.

(** [steps: any[]], [target?: number] and the [JSX.Element] that the
    caller's [renderStep] returns are opaque to the component. *)
Variables Step number JSXElement : Type.

Record AlgorithmVisualizerProps := {
  algorithm : string;
  steps : list Step;
  target : option number;
  renderStep : option Step -> Z -> Z -> JSXElement;
}.

Inductive ReactNode :=
| Text (s : string)              (* JSX text, or a string-valued expression *)
| Num (n : number)               (* a number-valued expression *)
| JsUndefined                    (* [{undefined}]: React renders nothing *)
| JsFalse                        (* [{false}]: React renders nothing *)
| Rendered (j : JSXElement)      (* what [renderStep] returned *)
| Elem (tag : string) (attrs : Attrs) (children : list ReactNode).

(** [steps.length] and [steps[i]]. *)
Definition len (l : list Step) : Z := Z.of_nat (length l).

Definition index (l : list Step) (i : Z) : option Step :=
  if i <? 0 then None else l !! Z.to_nat i.

(** *** The handlers (lines 91-110 and 175)

    Each is a closure created by a render; [s] is the state that render
    saw, and the result is the setter calls made when it is called. *)

Definition nextStep (props : AlgorithmVisualizerProps) (s : PlaybackState) : list SetState :=
  if currentStepIndex s <? len (steps props) - 1
  then [setCurrentStepIndex (currentStepIndex s + 1)]
  else [setIsPlaying false].

Definition prevStep (s : PlaybackState) : list SetState :=
  if currentStepIndex s >? 0
  then [setCurrentStepIndex (currentStepIndex s - 1)]
  else [].

Definition restart : list SetState :=
  [setCurrentStepIndex 0; setIsPlaying false].

Definition togglePlay (s : PlaybackState) : list SetState :=
  [setIsPlaying (negb (isPlaying s))].

(** *** The four operations on the playback state

    Calling the handler of the current render and committing its
    setter calls. *)

Definition next (props : AlgorithmVisualizerProps) (s : PlaybackState) : PlaybackState :=
  applyAll (nextStep props s) s.

Definition previous (s : PlaybackState) : PlaybackState :=
  applyAll (prevStep s) s.

Definition doRestart (s : PlaybackState) : PlaybackState :=
  applyAll restart s.

Definition doTogglePlay (s : PlaybackState) : PlaybackState :=
  applyAll (togglePlay s) s.

(** *** The returned tree (lines 128-202) *)

Definition optText (o : option string) : ReactNode :=
  match o with
  | Some s => Text s
  | None => JsUndefined
  end.

Definition optNum (o : option number) : ReactNode :=
  match o with
  | Some n => Num n
  | None => JsUndefined
  end.

Definition metadataBlock (selectedAlgo : Selected) : ReactNode :=
  Elem "div" (classed "space-y-2")
    [ Elem "p" (classed "font-semibold text-gray-700") [Text "Description:"];
      Elem "p" (classed "text-gray-600") [optText (field description selectedAlgo)];
      Elem "p" (classed "font-semibold text-gray-700") [Text "Time Complexity:"];
      Elem "p" (classed "text-gray-600") [optText (field timeComplexity selectedAlgo)];
      Elem "p" (classed "font-semibold text-gray-700") [Text "Space Complexity:"];
      Elem "p" (classed "text-gray-600") [optText (field spaceComplexity selectedAlgo)] ].

Definition fallbackText : string := "Select an algorithm to visualize.".

Definition fallbackPrompt : ReactNode :=
  Elem "p" (classed "text-gray-500") [Text fallbackText].

Definition targetLine (props : AlgorithmVisualizerProps) : ReactNode :=
  Elem "p" (classed "text-xl font-semibold text-gray-700 mb-4")
    [Text "Target: "; optNum (target props)].

Definition isSearch (name : string) : bool :=
  String.eqb name "Linear Search" || String.eqb name "Binary Search".

(** The attributes of the four buttons (lines 174-199). *)
Definition playAttrs (s : PlaybackState) : Attrs :=
  {| onClick := Some (togglePlay s);
     className := Some ("px-4 py-2 text-white rounded-md "
                        +:+ (if isPlaying s then "bg-red-500" else "bg-blue-500"));
     disabled := None |}.

Definition nextAttrs (props : AlgorithmVisualizerProps) (s : PlaybackState) : Attrs :=
  {| onClick := Some (nextStep props s);
     disabled := Some (currentStepIndex s =? len (steps props) - 1);
     className := Some "px-4 py-2 bg-green-500 text-white rounded-md" |}.

Definition previousAttrs (s : PlaybackState) : Attrs :=
  {| onClick := Some (prevStep s);
     disabled := Some (currentStepIndex s =? 0);
     className := Some "px-4 py-2 bg-gray-500 text-white rounded-md" |}.

Definition restartAttrs : Attrs :=
  {| onClick := Some restart;
     className := Some "px-4 py-2 bg-yellow-500 text-white rounded-md";
     disabled := None |}.

Definition controls (props : AlgorithmVisualizerProps) (s : PlaybackState) : ReactNode :=
  Elem "div" (classed "flex space-x-4")
    [ Elem "button" (playAttrs s) [Text (if isPlaying s then "Pause" else "Play")];
      Elem "button" (nextAttrs props s) [Text "Next"];
      Elem "button" (previousAttrs s) [Text "Previous"];
      Elem "button" restartAttrs [Text "Restart"] ].

Definition render (props : AlgorithmVisualizerProps) (s : PlaybackState) : ReactNode :=
  let selectedAlgo := getProperty algorithmInfo (algorithm props) in
  Elem "div" (classed " flex flex-col items-center p-4 bg-gray-100 rounded-lg shadow-lg")
    [ Elem "h2" (classed "text-2xl font-bold text-gray-800 mb-4")
        [Text "Visualization for "; Text (algorithm props)];
      Elem "div" noAttrs
        [ if truthy selectedAlgo then metadataBlock selectedAlgo else fallbackPrompt ];
      (if isSearch (algorithm props) then targetLine props else JsFalse);
      Elem "div" (classed "mb-8")
        [ Rendered (renderStep props
                      (index (steps props) (currentStepIndex s))
                      (currentStepIndex s)
                      (len (steps props))) ];
      controls props s ].

(** *** Reading a returned tree *)

(** The node itself and everything below it, in document order. The
    element returned by [renderStep] is a leaf: the component never
    looks inside it. *)
Fixpoint subnodes (n : ReactNode) : list ReactNode :=
  n :: match n with
       | Elem _ _ children => flat_map subnodes children
       | _ => []
       end.

(** The children are exactly the one text [text]. *)
Definition hasText (text : string) (children : list ReactNode) : bool :=
  match children with
  | [Text l] => String.eqb l text
  | _ => false
  end.

(** A [<button>] whose content is the text [label]. *)
Definition isButton (label : string) (n : ReactNode) : bool :=
  match n with
  | Elem tag _ children => String.eqb tag "button" && hasText label children
  | _ => false
  end.

Definition findButton (label : string) (tree : ReactNode) : option Attrs :=
  match find (isButton label) (subnodes tree) with
  | Some (Elem _ a _) => Some a
  | _ => None
  end.

(** Whether the button with this label is rendered disabled; a button
    without the attribute is enabled. *)
Definition isDisabled (label : string) (tree : ReactNode) : bool :=
  match findButton label tree with
  | Some a => default false (disabled a)
  | None => false
  end.

(** A [<p>] whose whole content is the text [text]. *)
Definition isParagraph (text : string) (n : ReactNode) : bool :=
  match n with
  | Elem tag _ children => String.eqb tag "p" && hasText text children
  | _ => false
  end.

Definition showsParagraph (text : string) (tree : ReactNode) : bool :=
  existsb (isParagraph text) (subnodes tree).

(** A [<p>] that starts with the text ["Target: "]. *)
Definition startsWithText (text : string) (children : list ReactNode) : bool :=
  match children with
  | Text l :: _ => String.eqb l text
  | _ => false
  end.

Definition isTargetDisplay (n : ReactNode) : bool :=
  match n with
  | Elem tag _ children => String.eqb tag "p" && startsWithText "Target: " children
  | _ => false
  end.

Definition showsTarget (tree : ReactNode) : bool :=
  existsb isTargetDisplay (subnodes tree).

(** The numbers the component itself prints, in document order. What the
    caller's [renderStep] prints is inside its [Rendered] leaf and is not
    read. *)
Definition numberOf (n : ReactNode) : list number :=
  match n with
  | Num v => [v]
  | _ => []
  end.

Definition shownNumbers (tree : ReactNode) : list number :=
  flat_map numberOf (subnodes tree).

(** *** The mounted component: state cells and the autoplay effect
    (lines 113-126)

    [interval] is the timer armed by the effect, if any, with the state
    of the render whose [nextStep] its callback calls. *)

Record AlgorithmVisualizer := {
  state : PlaybackState;
  interval : option PlaybackState;
}.

(** The effect body: arm an interval when playing. *)
Definition effect (s : PlaybackState) : option PlaybackState :=
  if isPlaying s then Some s else None.

(** Committing a batch of setter calls. The effect's dependencies are
    [[isPlaying, currentStepIndex]], the whole state: when they are
    unchanged the armed interval stays; when they changed the cleanup
    clears it and the effect runs again for the new render. *)
Definition commit (inst : AlgorithmVisualizer) (us : list SetState) : AlgorithmVisualizer :=
  let s' := applyAll us (state inst) in
  {| state := s';
     interval := if decide (s' = state inst) then interval inst else effect s' |}.

Definition mount : AlgorithmVisualizer :=
  {| state := initialState; interval := effect initialState |}.

Inductive Event :=
| Click (label : string)   (* the user clicks the button with this label *)
| Tick.                    (* the armed interval fires *)

(** A click on a disabled button, or on a label no button carries, is
    not delivered. *)
Definition click (props : AlgorithmVisualizerProps) (label : string) (inst : AlgorithmVisualizer) : AlgorithmVisualizer :=
  match findButton label (render props (state inst)) with
  | Some a =>
      if default false (disabled a) then inst
      else commit inst (default [] (onClick a))
  | None => inst
  end.

(** The interval can fire only while it is armed. *)
Definition tick (props : AlgorithmVisualizerProps) (inst : AlgorithmVisualizer) : option AlgorithmVisualizer :=
  match interval inst with
  | Some r => Some (commit inst (nextStep props r))
  | None => None
  end.

Definition fire (props : AlgorithmVisualizerProps) (inst : AlgorithmVisualizer) (ev : Event) : option AlgorithmVisualizer :=
  match ev with
  | Click label => Some (click props label inst)
  | Tick => tick props inst
  end.

Fixpoint run (props : AlgorithmVisualizerProps) (inst : AlgorithmVisualizer) (evs : list Event) : option AlgorithmVisualizer :=
  match evs with
  | [] => Some inst
  | ev :: evs' => fire props inst ev ≫= fun inst' => run props inst' evs'
  end.

(** The invariant of the data model. *)
Definition inRange (props : AlgorithmVisualizerProps) (s : PlaybackState) : Prop :=
  0 <= currentStepIndex s <= len (steps props) - 1.

(** The armed interval is the one the effect of the current render made. *)
Definition coherent (inst : AlgorithmVisualizer) : Prop :=
  interval inst = effect (state inst).

(** Autoplay running at index [c], and autoplay stopped at index [c]. *)
Definition playingAt (c : Z) : AlgorithmVisualizer :=
  {| state := {| currentStepIndex := c; isPlaying := true |};
     interval := Some {| currentStepIndex := c; isPlaying := true |} |}.

Definition stoppedAt (c : Z) : AlgorithmVisualizer :=
  {| state := {| currentStepIndex := c; isPlaying := false |};
     interval := None |}.

(** The autoplay scenario in the words of the specification: after
    pressing Play on a fresh component and [ticks] timer ticks, the cursor
    is [last], playback has stopped, and one more tick does not occur or
    changes nothing. *)
Definition autoplayStoppedAfter
    (props : AlgorithmVisualizerProps) (ticks : nat) (last : Z) : Prop :=
  ∃ inst,
    run props mount (Click "Play" :: replicate ticks Tick) = Some inst
    ∧ currentStepIndex (state inst) = last
    ∧ isPlaying (state inst) = false
    ∧ (tick props inst = None ∨ tick props inst = Some inst).

End Component.

Arguments Text {number JSXElement} s.
Arguments Num {number JSXElement} n.
Arguments JsUndefined {number JSXElement}.
Arguments JsFalse {number JSXElement}.
Arguments Rendered {number JSXElement} j.
Arguments Elem {number JSXElement} tag attrs children.
Arguments optText {number JSXElement} o.
Arguments optNum {number JSXElement} o.
Arguments hasText {number JSXElement} text children.
Arguments startsWithText {number JSXElement} text children.
Arguments algorithm {Step number JSXElement} _.
Arguments steps {Step number JSXElement} _.
Arguments target {Step number JSXElement} _.
Arguments renderStep {Step number JSXElement} _ _ _ _.
Arguments len {Step} l.
Arguments index {Step} l i.
Arguments nextStep {Step number JSXElement} props s.
Arguments next {Step number JSXElement} props s.
Arguments metadataBlock {number JSXElement} selectedAlgo.
Arguments fallbackPrompt {number JSXElement}.
Arguments targetLine {Step number JSXElement} props.
Arguments nextAttrs {Step number JSXElement} props s.
Arguments controls {Step number JSXElement} props s.
Arguments render {Step number JSXElement} props s.
Arguments subnodes {number JSXElement} n.
Arguments isButton {number JSXElement} label n.
Arguments findButton {number JSXElement} label tree.
Arguments isParagraph {number JSXElement} text n.
Arguments showsParagraph {number JSXElement} text tree.
Arguments isTargetDisplay {number JSXElement} n.
Arguments showsTarget {number JSXElement} tree.
Arguments numberOf {number JSXElement} n.
Arguments shownNumbers {number JSXElement} tree.
Arguments isDisabled {number JSXElement} label tree.
Arguments autoplayStoppedAfter {Step number JSXElement} props ticks last.
Arguments click {Step number JSXElement} props label inst.
Arguments tick {Step number JSXElement} props inst.
Arguments fire {Step number JSXElement} props inst ev.
Arguments run {Step number JSXElement} props inst evs.
Arguments inRange {Step number JSXElement} props s.


(** ** Concrete sessions used as examples *)

(** Five steps, as in the autoplay scenario of the specification. *)
Definition fiveSteps : AlgorithmVisualizerProps nat Z unit :=
  {| algorithm := "Bubble Sort";
     steps := [10; 20; 30; 40; 50]%nat;
     target := None;
     renderStep := λ _ _ _, () |}.

(** A search over the same steps with no target supplied. *)
Definition searchWithoutTarget : AlgorithmVisualizerProps nat Z unit :=
  {| algorithm := "Linear Search";
     steps := [10; 20; 30; 40; 50]%nat;
     target := None;
     renderStep := λ _ _ _, () |}.

(** A name the table does not have. *)
Definition unknownAlgo : AlgorithmVisualizerProps nat Z unit :=
  {| algorithm := "Unknown Algo";
     steps := [10; 20; 30; 40; 50]%nat;
     target := None;
     renderStep := λ _ _ _, () |}.

(** A name the table does not have either, but [Object.prototype] does. *)
Definition inheritedAlgo : AlgorithmVisualizerProps nat Z unit :=
  {| algorithm := "constructor";
     steps := [10; 20; 30; 40; 50]%nat;
     target := None;
     renderStep := λ _ _ _, () |}.

(** ** Further readings of a tree and further sessions *)

(** The label the Play/Pause button carries in a render (line 178). *)
Definition toggleLabel (s : PlaybackState) : string :=
  if isPlaying s then "Pause" else "Play".

(** How many results of [renderStep] a tree holds. *)
Definition isRendered {number JSXElement : Type} (n : ReactNode number JSXElement) : bool :=
  match n with
  | Rendered _ => true
  | _ => false
  end.

Definition countRendered {number JSXElement : Type} (tree : ReactNode number JSXElement) : nat :=
  length (List.filter isRendered (subnodes tree)).

(** A search and a sort, each with a target supplied. *)
Definition searchWithTarget : AlgorithmVisualizerProps nat Z unit :=
  {| algorithm := "Binary Search";
     steps := [10; 20; 30; 40; 50]%nat;
     target := Some 7;
     renderStep := λ _ _ _, () |}.

Definition sortWithTarget : AlgorithmVisualizerProps nat Z unit :=
  {| algorithm := "Bubble Sort";
     steps := [10; 20; 30; 40; 50]%nat;
     target := Some 7;
     renderStep := λ _ _ _, () |}.

(** No steps at all: the boundary case the component does not guard. *)
Definition noSteps : AlgorithmVisualizerProps nat Z unit :=
  {| algorithm := "Bubble Sort";
     steps := [];
     target := None;
     renderStep := λ _ _ _, () |}.

(** * Properties *)

(** ** The four operations *)

Section Operations.

Context {Step number JSXElement : Type}.
Implicit Types (props : AlgorithmVisualizerProps Step number JSXElement).
Implicit Types (s : PlaybackState) (inst : AlgorithmVisualizer).

Lemma state_eta s :
  {| currentStepIndex := currentStepIndex s; isPlaying := isPlaying s |} = s.
Proof. by destruct s. Qed.

(** [next] unfolded once: the two branches of [nextStep]. *)
Lemma next_advance props s :
  currentStepIndex s < len (steps props) - 1 →
  next props s =
    {| currentStepIndex := currentStepIndex s + 1; isPlaying := isPlaying s |}.
Proof.
  intros Hlt. unfold next, nextStep.
  destruct (Z.ltb_spec (currentStepIndex s) (len (steps props) - 1)); [done | lia].
Qed.

Lemma next_stop props s :
  len (steps props) - 1 <= currentStepIndex s →
  next props s =
    {| currentStepIndex := currentStepIndex s; isPlaying := false |}.
Proof.
  intros Hge. unfold next, nextStep.
  destruct (Z.ltb_spec (currentStepIndex s) (len (steps props) - 1)); [lia | done].
Qed.

Lemma previous_back s :
  0 < currentStepIndex s →
  previous s =
    {| currentStepIndex := currentStepIndex s - 1; isPlaying := isPlaying s |}.
Proof.
  intros Hpos. unfold previous, prevStep.
  destruct (Z.gtb_spec (currentStepIndex s) 0); [done | lia].
Qed.

Lemma previous_floor s :
  currentStepIndex s <= 0 → previous s = s.
Proof.
  intros Hle. unfold previous, prevStep.
  destruct (Z.gtb_spec (currentStepIndex s) 0); [lia | done].
Qed.

Lemma doRestart_eq s :
  doRestart s = {| currentStepIndex := 0; isPlaying := false |}.
Proof. done. Qed.

Lemma doTogglePlay_eq s :
  doTogglePlay s =
    {| currentStepIndex := currentStepIndex s; isPlaying := negb (isPlaying s) |}.
Proof. done. Qed.

(** C3: below the last index [next] adds one to the cursor and keeps
    the playing flag; at the last index while playing it clears the flag
    and keeps the cursor; at the last index while paused it changes
    nothing. *)
Theorem next_spec props s :
  (currentStepIndex s < len (steps props) - 1 →
     currentStepIndex (next props s) = currentStepIndex s + 1
     ∧ isPlaying (next props s) = isPlaying s)
  ∧ (currentStepIndex s = len (steps props) - 1 → isPlaying s = true →
     currentStepIndex (next props s) = currentStepIndex s
     ∧ isPlaying (next props s) = false)
  ∧ (currentStepIndex s = len (steps props) - 1 → isPlaying s = false →
     next props s = s).
Proof.
  split; [| split].
  - intros Hlt. by rewrite next_advance.
  - intros Hlast _. rewrite next_stop; [done | lia].
  - intros Hlast Hpaused. rewrite next_stop; [| lia].
    rewrite <- Hpaused. apply state_eta.
Qed.

(** C6: above index 0 one [previous] subtracts exactly one from the
    cursor and keeps the playing flag; at index 0 it changes nothing. *)
Theorem previous_spec s :
  (0 < currentStepIndex s →
     currentStepIndex (previous s) = currentStepIndex s - 1
     ∧ isPlaying (previous s) = isPlaying s)
  ∧ (currentStepIndex s = 0 → previous s = s).
Proof.
  split.
  - intros Hpos. by rewrite previous_back.
  - intros Hzero. apply previous_floor. lia.
Qed.

(** C7: whatever the state before, [restart] leaves the cursor at 0 and
    the playing flag cleared. *)
Theorem restart_spec s :
  currentStepIndex (doRestart s) = 0 ∧ isPlaying (doRestart s) = false.
Proof. by rewrite doRestart_eq. Qed.

End Operations.

(** ** Reading the returned tree *)

Section Tree.

Context {Step number JSXElement : Type}.
Implicit Types (props : AlgorithmVisualizerProps Step number JSXElement).
Implicit Types (s : PlaybackState) (n : ReactNode number JSXElement).

Local Arguments String.eqb : simpl nomatch.

(** Nothing above the control bar is a button. *)
Lemma find_button_controls label props s :
  find (isButton label) (subnodes (render props s))
  = find (isButton label) (subnodes (controls props s)).
Proof.
  unfold render, targetLine.
  destruct (getProperty algorithmInfo (algorithm props)) as [|info|name];
    destruct (isSearch (algorithm props)), (target props); reflexivity.
Qed.

Lemma findButton_cases label props s a :
  findButton label (render props s) = Some a →
  a = playAttrs s ∨ a = nextAttrs props s ∨ a = previousAttrs s ∨ a = restartAttrs.
Proof.
  unfold findButton. rewrite find_button_controls.
  unfold controls. cbn.
  destruct (String.eqb (if isPlaying s then "Pause" else "Play") label);
    [intros ?; simplify_eq; left; reflexivity |].
  destruct (String.eqb "Next" label); [intros ?; simplify_eq; right; left; reflexivity |].
  destruct (String.eqb "Previous" label);
    [intros ?; simplify_eq; do 2 right; left; reflexivity |].
  destruct (String.eqb "Restart" label); [intros ?; simplify_eq; do 3 right; reflexivity |].
  done.
Qed.

Lemma findButton_next props s :
  findButton "Next" (render props s) = Some (nextAttrs props s).
Proof.
  unfold findButton. rewrite find_button_controls. unfold controls.
  destruct (isPlaying s); reflexivity.
Qed.

Lemma findButton_previous props s :
  findButton "Previous" (render props s) = Some (previousAttrs s).
Proof.
  unfold findButton. rewrite find_button_controls. unfold controls.
  destruct (isPlaying s); reflexivity.
Qed.

Lemma findButton_restart props s :
  findButton "Restart" (render props s) = Some restartAttrs.
Proof.
  unfold findButton. rewrite find_button_controls. unfold controls.
  destruct (isPlaying s); reflexivity.
Qed.

Lemma findButton_play props s :
  findButton (if isPlaying s then "Pause" else "Play") (render props s)
  = Some (playAttrs s).
Proof.
  unfold findButton. rewrite find_button_controls.
  destruct s as [c [|]]; reflexivity.
Qed.

(** Each label is carried by exactly one button. *)
Lemma button_unique props s :
  length (List.filter (isButton "Next") (subnodes (render props s))) = 1%nat
  ∧ length (List.filter (isButton "Previous") (subnodes (render props s))) = 1%nat.
Proof.
  unfold render, targetLine, controls.
  destruct (getProperty algorithmInfo (algorithm props)) as [|info|name];
    destruct (isSearch (algorithm props)), (target props), (isPlaying s);
    split; reflexivity.
Qed.

End Tree.

(** ** The mounted component: commits, clicks and ticks *)

Section Runtime.

Context {Step number JSXElement : Type}.
Implicit Types (props : AlgorithmVisualizerProps Step number JSXElement).
Implicit Types (s : PlaybackState) (inst : AlgorithmVisualizer) (us : list SetState).

Lemma state_commit inst us :
  state (commit inst us) = applyAll us (state inst).
Proof. done. Qed.

(** The armed interval always belongs to the current render: a commit
    that changes a dependency re-runs the effect. *)
Lemma commit_coherent inst us :
  coherent inst → coherent (commit inst us).
Proof.
  unfold coherent, commit. cbn. intros Hco.
  case_decide as Heq; [by rewrite Heq | done].
Qed.

Lemma mount_coherent : coherent mount.
Proof. done. Qed.

(** A delivered click runs the handler of the current render. *)
Lemma click_next props inst :
  click props "Next" inst =
    if currentStepIndex (state inst) =? len (steps props) - 1 then inst
    else commit inst (nextStep props (state inst)).
Proof. unfold click. by rewrite findButton_next. Qed.

Lemma click_previous props inst :
  click props "Previous" inst =
    if currentStepIndex (state inst) =? 0 then inst
    else commit inst (prevStep (state inst)).
Proof. unfold click. by rewrite findButton_previous. Qed.

Lemma click_restart props inst :
  click props "Restart" inst = commit inst restart.
Proof. unfold click. by rewrite findButton_restart. Qed.

Lemma click_play props inst :
  click props (if isPlaying (state inst) then "Pause" else "Play") inst
  = commit inst (togglePlay (state inst)).
Proof. unfold click. by rewrite findButton_play. Qed.

(** Whatever the label, a click is ignored or runs one of the four
    handlers. *)
Lemma click_cases props label inst :
  click props label inst = inst
  ∨ click props label inst = commit inst (togglePlay (state inst))
  ∨ click props label inst = commit inst (nextStep props (state inst))
  ∨ click props label inst = commit inst (prevStep (state inst))
  ∨ click props label inst = commit inst restart.
Proof.
  unfold click.
  destruct (findButton label (render props (state inst))) as [a|] eqn:Hfind;
    [| by left].
  apply findButton_cases in Hfind as [-> | [-> | [-> | ->]]]; cbn.
  - right. by left.
  - destruct (currentStepIndex (state inst) =? len (steps props) - 1);
      [by left | do 2 right; by left].
  - destruct (currentStepIndex (state inst) =? 0);
      [by left | do 3 right; by left].
  - by do 4 right.
Qed.

(** While the interval is the current render's, a tick is [next]. *)
Lemma tick_coherent props inst :
  coherent inst →
  tick props inst =
    if isPlaying (state inst)
    then Some (commit inst (nextStep props (state inst)))
    else None.
Proof.
  unfold coherent, tick, effect. intros ->. by destruct (isPlaying (state inst)).
Qed.

(** *** The cursor stays inside the sequence *)

Lemma initial_inRange props :
  0 < len (steps props) → inRange props initialState.
Proof. unfold inRange. cbn. lia. Qed.

Lemma next_inRange props s :
  inRange props s → inRange props (next props s).
Proof.
  unfold inRange. intros Hin.
  destruct (Z.lt_ge_cases (currentStepIndex s) (len (steps props) - 1)).
  - rewrite next_advance by done. cbn. lia.
  - rewrite next_stop by lia. cbn. lia.
Qed.

Lemma previous_inRange props s :
  inRange props s → inRange props (previous s).
Proof.
  unfold inRange. intros Hin.
  destruct (Z.lt_ge_cases 0 (currentStepIndex s)).
  - rewrite previous_back by done. cbn. lia.
  - rewrite previous_floor by lia. lia.
Qed.

Lemma doRestart_inRange props s :
  0 < len (steps props) → inRange props (doRestart s).
Proof. unfold inRange. cbn. lia. Qed.

Lemma doTogglePlay_inRange props s :
  inRange props s → inRange props (doTogglePlay s).
Proof. done. Qed.

Lemma index_inRange props s :
  inRange props s → is_Some (index (steps props) (currentStepIndex s)).
Proof.
  unfold inRange, index, len. intros Hin.
  destruct (Z.ltb_spec (currentStepIndex s) 0); [lia |].
  apply lookup_lt_is_Some. lia.
Qed.

Lemma click_invariant props label inst :
  0 < len (steps props) →
  coherent inst ∧ inRange props (state inst) →
  coherent (click props label inst) ∧ inRange props (state (click props label inst)).
Proof.
  intros Hlen [Hco Hin].
  destruct (click_cases props label inst) as [-> | [-> | [-> | [-> | ->]]]];
    [done | split; [by apply commit_coherent |] ..]; rewrite state_commit.
  - by apply doTogglePlay_inRange.
  - by apply next_inRange.
  - by apply previous_inRange.
  - by apply doRestart_inRange.
Qed.

Lemma tick_invariant props inst inst' :
  coherent inst ∧ inRange props (state inst) →
  tick props inst = Some inst' →
  coherent inst' ∧ inRange props (state inst').
Proof.
  intros [Hco Hin]. rewrite tick_coherent by done.
  destruct (isPlaying (state inst)); [| done].
  intros [= <-]. split; [by apply commit_coherent |].
  rewrite state_commit. by apply next_inRange.
Qed.

(** Every state a session can reach keeps both invariants. *)
Lemma run_invariant props evs : ∀ inst inst',
  0 < len (steps props) →
  coherent inst ∧ inRange props (state inst) →
  run props inst evs = Some inst' →
  coherent inst' ∧ inRange props (state inst').
Proof.
  induction evs as [|ev evs IH]; intros inst inst' Hlen Hinv; cbn.
  - by intros [= <-].
  - destruct ev as [label|]; cbn.
    + apply IH; [done |]. by apply click_invariant.
    + destruct (tick props inst) as [inst1|] eqn:Htick; [| done]. cbn.
      apply IH; [done |]. by eapply tick_invariant.
Qed.

End Runtime.

(** ** Sessions: the cursor invariant, autoplay, and the buttons *)

Section Sessions.

Context {Step number JSXElement : Type}.
Implicit Types (props : AlgorithmVisualizerProps Step number JSXElement).
Implicit Types (s : PlaybackState) (inst : AlgorithmVisualizer).

(** C2: for a non-empty step sequence the cursor is within
    [0, length-1] initially, each of the four operations keeps it there,
    and so every state a session reaches has it there and reads
    [steps[cursor]] inside the sequence. *)
Theorem cursor_in_bounds props :
  0 < len (steps props) →
  inRange props initialState
  ∧ (∀ s, inRange props s →
       inRange props (next props s)
       ∧ inRange props (previous s)
       ∧ inRange props (doRestart s)
       ∧ inRange props (doTogglePlay s))
  ∧ (∀ evs inst, run props mount evs = Some inst →
       inRange props (state inst)
       ∧ is_Some (index (steps props) (currentStepIndex (state inst)))).
Proof.
  intros Hlen. split; [by apply initial_inRange | split].
  - intros s Hin. split; [| split; [| split]].
    + by apply next_inRange.
    + by apply previous_inRange.
    + by apply doRestart_inRange.
    + by apply doTogglePlay_inRange.
  - intros evs inst Hrun.
    assert (coherent inst ∧ inRange props (state inst)) as [_ Hin].
    { eapply run_invariant; [done | | done].
      split; [apply mount_coherent | by apply initial_inRange]. }
    split; [done | by apply index_inRange].
Qed.

(** Autoplay from index [c]: [k] ticks that stay inside the sequence
    each advance the cursor by one and leave playback running. *)
Lemma autoplay_advances props (k : nat) : ∀ c,
  c + Z.of_nat k <= len (steps props) - 1 →
  run props (playingAt c) (replicate k Tick) = Some (playingAt (c + Z.of_nat k)).
Proof.
  induction k as [|k IH]; intros c Hle.
  - cbn. by rewrite Z.add_0_r.
  - cbn [replicate run fire]. rewrite tick_coherent by done. cbn [state playingAt isPlaying].
    cbn [mbind option_bind].
    replace (commit (playingAt c) (nextStep props {| currentStepIndex := c; isPlaying := true |}))
      with (playingAt (c + 1)).
    + rewrite IH by lia. f_equal. f_equal. lia.
    + unfold commit, nextStep, playingAt. cbn.
      destruct (Z.ltb_spec c (len (steps props) - 1)); [| lia]. cbn.
      rewrite decide_False; [done |]. intros [=]. lia.
Qed.

(** The tick that fires at the last index stops playback. *)
Lemma autoplay_stops props c :
  len (steps props) - 1 <= c →
  tick props (playingAt c) = Some (stoppedAt c).
Proof.
  intros Hge. rewrite tick_coherent by done.
  unfold commit, nextStep, playingAt, stoppedAt. cbn.
  destruct (Z.ltb_spec c (len (steps props) - 1)); [lia |]. cbn.
  by rewrite decide_False.
Qed.

Lemma run_app props evs1 : ∀ evs2 inst inst1,
  run props inst evs1 = Some inst1 →
  run props inst (evs1 ++ evs2)%list = run props inst1 evs2.
Proof.
  induction evs1 as [|ev evs1 IH]; intros evs2 inst inst1; cbn.
  - by intros [= ->].
  - destruct (fire props inst ev) as [inst'|]; [| done]. cbn. apply IH.
Qed.

Lemma press_play props :
  run props mount [Click "Play"] = Some (playingAt 0).
Proof.
  cbn [run fire mbind option_bind]. f_equal.
  etrans; [exact (click_play props mount) | reflexivity].
Qed.

(** C1, as the code has it: on a sequence of [n >= 1] steps, pressing
    Play at index 0 and letting fewer than [n] ticks elapse leaves the
    cursor at the number of ticks with playback still running (so the
    tick that reaches the last index does not stop it); the [n]-th tick,
    fired at the last index, stops playback without moving the cursor;
    after it no interval is armed, so no further tick occurs. In
    general a tick below the last index advances and keeps playing, and
    a tick at the last index stops. *)
Theorem autoplay_stops_one_tick_after_last_index props (n : nat) :
  len (steps props) = Z.of_nat n → (1 ≤ n)%nat →
  (∀ k : nat, (k < n)%nat →
     run props mount (Click "Play" :: replicate k Tick) = Some (playingAt (Z.of_nat k)))
  ∧ run props mount (Click "Play" :: replicate n Tick) = Some (stoppedAt (Z.of_nat n - 1))
  ∧ tick props (stoppedAt (Z.of_nat n - 1)) = None
  ∧ (∀ c, c < len (steps props) - 1 →
       tick props (playingAt c) = Some (playingAt (c + 1)))
  ∧ (∀ c, c = len (steps props) - 1 →
       tick props (playingAt c) = Some (stoppedAt c)).
Proof.
  intros Hlen Hn.
  assert (∀ k : nat, (k < n)%nat →
     run props mount (Click "Play" :: replicate k Tick) = Some (playingAt (Z.of_nat k)))
    as Hplay.
  { intros k Hk.
    change (Click "Play" :: replicate k Tick) with ([Click "Play"] ++ replicate k Tick)%list.
    rewrite (run_app props [Click "Play"] _ mount _ (press_play props)).
    rewrite autoplay_advances by lia. f_equal. }
  split; [done | split; [| split; [done | split]]].
  2: { intros c Hc. by apply (autoplay_advances props 1 c ltac:(lia)). }
  2: { intros c Hc. apply autoplay_stops. lia. }
  replace (Click "Play" :: replicate n Tick)
    with ((Click "Play" :: replicate (n - 1) Tick) ++ [Tick])%list.
  - rewrite (run_app props _ _ mount _ (Hplay (n - 1)%nat ltac:(lia))).
    cbn [run fire]. rewrite autoplay_stops by lia. cbn.
    do 2 f_equal. lia.
  - cbn. f_equal. rewrite <- replicate_S_end. f_equal. lia.
Qed.

(** C10: away from index 0 and inside the sequence, [previous] followed
    by [next] gives back the same cursor and the same playing flag; on a
    mounted component the same holds for the two button clicks, interval
    included. *)
Theorem next_after_previous props s :
  0 < len (steps props) →
  1 <= currentStepIndex s <= len (steps props) - 1 →
  next props (previous s) = s
  ∧ (∀ inst, state inst = s → coherent inst →
       click props "Next" (click props "Previous" inst) = inst).
Proof.
  intros Hlen Hc.
  assert (next props (previous s) = s) as Hback.
  { rewrite previous_back by lia. rewrite next_advance by (cbn; lia). cbn.
    destruct s as [c p]. cbn. f_equal. lia. }
  split; [done |].
  intros inst <- Hco.
  rewrite click_previous.
  destruct (Z.eqb_spec (currentStepIndex (state inst)) 0); [lia |].
  rewrite click_next, state_commit.
  change (applyAll (prevStep (state inst)) (state inst)) with (previous (state inst)).
  rewrite previous_back by lia. cbn [currentStepIndex].
  destruct (Z.eqb_spec (currentStepIndex (state inst) - 1) (len (steps props) - 1)); [lia |].
  unfold commit at 1. rewrite state_commit.
  change (applyAll (prevStep (state inst)) (state inst)) with (previous (state inst)).
  rewrite <- (previous_back (state inst)) by lia.
  change (applyAll (nextStep props (previous (state inst))) (previous (state inst)))
    with (next props (previous (state inst))).
  rewrite Hback. rewrite decide_False.
  - rewrite <- Hco. by destruct inst.
  - rewrite previous_back by lia. destruct (state inst) as [c p]. cbn. intros [=]. lia.
Qed.

(** C8: the tree of every render has exactly one Next and one Previous
    button; Next is disabled exactly when the cursor is the last index
    and Previous exactly when it is 0; a click on Next at the last index
    is therefore not delivered and changes nothing. *)
Theorem controls_disabled props s :
  length (List.filter (isButton "Next") (subnodes (render props s))) = 1%nat
  ∧ length (List.filter (isButton "Previous") (subnodes (render props s))) = 1%nat
  ∧ (isDisabled "Next" (render props s) = true
     ↔ currentStepIndex s = len (steps props) - 1)
  ∧ (isDisabled "Previous" (render props s) = true ↔ currentStepIndex s = 0)
  ∧ (∀ inst, state inst = s →
       currentStepIndex s = len (steps props) - 1 →
       click props "Next" inst = inst).
Proof.
  split; [apply button_unique | split; [apply button_unique |]].
  unfold isDisabled. rewrite findButton_next, findButton_previous. cbn.
  split; [apply Z.eqb_eq | split; [apply Z.eqb_eq |]].
  intros inst <- Hlast. rewrite click_next.
  by destruct (Z.eqb_spec (currentStepIndex (state inst)) (len (steps props) - 1)).
Qed.

End Sessions.

(** ** What a render shows: metadata, fallback and target line *)

Section Presentation.

Context {Step number JSXElement : Type}.
Implicit Types (props : AlgorithmVisualizerProps Step number JSXElement).
Implicit Types (s : PlaybackState) (info : AlgorithmInfo).

Local Arguments String.eqb : simpl nomatch.

Lemma algorithmInfo_entry name info :
  algorithmInfo !! name = Some info → (name, info) ∈ algorithmInfoEntries.
Proof. apply elem_of_list_to_map_2. Qed.

Lemma algorithmInfo_lookup name info :
  (name, info) ∈ algorithmInfoEntries → algorithmInfo !! name = Some info.
Proof.
  apply elem_of_list_to_map_1.
  apply (bool_decide_unpack _). by vm_compute.
Qed.

(** None of the fixed strings of the table is one of the two texts the
    component itself prints in a paragraph of its own. *)
Lemma entry_texts name info text :
  algorithmInfo !! name = Some info →
  text = "Target: " ∨ text = fallbackText →
  String.eqb (description info) text = false
  ∧ String.eqb (timeComplexity info) text = false
  ∧ String.eqb (spaceComplexity info) text = false.
Proof.
  intros Hin%algorithmInfo_entry Htext.
  assert (Forall (λ e : string * AlgorithmInfo,
            ∀ t, t = "Target: " ∨ t = fallbackText →
              String.eqb (description e.2) t = false
              ∧ String.eqb (timeComplexity e.2) t = false
              ∧ String.eqb (spaceComplexity e.2) t = false) algorithmInfoEntries) as Hall.
  { repeat constructor; destruct H as [-> | ->]; reflexivity. }
  rewrite Forall_forall in Hall. by apply (Hall _ Hin).
Qed.

(** The names of the table are not those of [Object.prototype]. *)
Lemma getProperty_key name info :
  getProperty algorithmInfo name = SelInfo info ↔ algorithmInfo !! name = Some info.
Proof.
  unfold getProperty. destruct (algorithmInfo !! name) as [i|].
  - split; by intros [= ->].
  - by destruct (inheritedName name).
Qed.

Lemma getProperty_undefined name :
  getProperty algorithmInfo name = SelUndefined
  ↔ algorithmInfo !! name = None ∧ inheritedName name = false.
Proof.
  unfold getProperty. destruct (algorithmInfo !! name) as [i|].
  - split; [done | by intros [? _]].
  - destruct (inheritedName name); split; try done. by intros [_ ?].
Qed.

Lemma isSearch_spec name :
  isSearch name = true ↔ name = "Linear Search" ∨ name = "Binary Search".
Proof.
  unfold isSearch. rewrite orb_true_iff. by rewrite !String.eqb_eq.
Qed.

(** The target paragraph is in the tree exactly when [isSearch] holds. *)
Lemma showsTarget_render props s :
  showsTarget (render props s) = isSearch (algorithm props).
Proof.
  unfold render, targetLine, showsTarget.
  destruct (getProperty algorithmInfo (algorithm props)) as [|info|name] eqn:Hsel;
    destruct (isSearch (algorithm props)), (target props); try reflexivity.
  all: apply getProperty_key in Hsel.
  all: destruct (entry_texts _ _ "Target: " Hsel) as (Hd & Ht & Hs); [by left |].
  all: cbn; by rewrite Hd, Ht, Hs.
Qed.

Lemma showsParagraph_elem text (tree n : ReactNode number JSXElement) :
  n ∈ subnodes tree → isParagraph text n = true → showsParagraph text tree = true.
Proof.
  intros Hin Hpar. apply existsb_exists. exists n.
  split; [by apply list_elem_of_In | done].
Qed.

(** A name found in the table: its metadata block is rendered, with
    the three fixed strings of the entry, instead of the fallback. *)
Lemma key_renders_metadata props s info :
  algorithmInfo !! algorithm props = Some info →
  metadataBlock (SelInfo info) ∈ subnodes (render props s)
  ∧ Elem "p" (classed "text-gray-600") [Text (description info)]
      ∈ subnodes (render props s)
  ∧ Elem "p" (classed "text-gray-600") [Text (timeComplexity info)]
      ∈ subnodes (render props s)
  ∧ Elem "p" (classed "text-gray-600") [Text (spaceComplexity info)]
      ∈ subnodes (render props s)
  ∧ showsParagraph fallbackText (render props s) = false.
Proof.
  intros Hkey. pose proof Hkey as Hsel%getProperty_key.
  destruct (entry_texts _ _ fallbackText Hkey) as (Hd & Ht & Hs); [by right |].
  unfold render, targetLine, showsParagraph. rewrite Hsel.
  destruct (isSearch (algorithm props)), (target props); cbn.
  all: rewrite Hd, Ht, Hs.
  all: repeat split; try reflexivity.
  all: repeat first [apply list_elem_of_here | apply list_elem_of_further].
Qed.

(** A name that neither the table nor [Object.prototype] has: the
    fallback prompt is rendered and no metadata paragraph is. *)
Lemma unknown_renders_fallback props s :
  algorithmInfo !! algorithm props = None →
  inheritedName (algorithm props) = false →
  fallbackPrompt ∈ subnodes (render props s)
  ∧ showsParagraph fallbackText (render props s) = true
  ∧ showsParagraph "Description:" (render props s) = false
  ∧ showsParagraph "Time Complexity:" (render props s) = false
  ∧ showsParagraph "Space Complexity:" (render props s) = false.
Proof.
  intros Hnone Hinh.
  assert (getProperty algorithmInfo (algorithm props) = SelUndefined) as Hsel.
  { by apply getProperty_undefined. }
  unfold render, targetLine, showsParagraph. rewrite Hsel.
  destruct (isSearch (algorithm props)), (target props); cbn.
  all: repeat split; try reflexivity.
  all: repeat first [apply list_elem_of_here | apply list_elem_of_further].
Qed.

(** A name that the table lacks but [Object.prototype] has: the value
    read is truthy, so the metadata block is rendered, with its three
    labels and three empty paragraphs, and the fallback is not. *)
Lemma inherited_renders_metadata props s :
  algorithmInfo !! algorithm props = None →
  inheritedName (algorithm props) = true →
  metadataBlock (SelInherited (algorithm props)) ∈ subnodes (render props s)
  ∧ showsParagraph "Description:" (render props s) = true
  ∧ showsParagraph "Time Complexity:" (render props s) = true
  ∧ showsParagraph "Space Complexity:" (render props s) = true
  ∧ Elem "p" (classed "text-gray-600") [JsUndefined] ∈ subnodes (render props s)
  ∧ (fallbackPrompt ∉ subnodes (render props s))
  ∧ showsParagraph fallbackText (render props s) = false.
Proof.
  intros Hnone Hinh.
  assert (getProperty algorithmInfo (algorithm props) = SelInherited (algorithm props))
    as Hsel by (unfold getProperty; by rewrite Hnone, Hinh).
  assert (showsParagraph fallbackText (render props s) = false) as Hfallback.
  { unfold render, targetLine, showsParagraph. rewrite Hsel.
    by destruct (isSearch (algorithm props)), (target props). }
  do 5 (try split); [.. | split; [| done]].
  6: { intros Hin. apply (showsParagraph_elem fallbackText) in Hin; [congruence | done]. }
  all: unfold render, targetLine, showsParagraph; rewrite Hsel.
  all: destruct (isSearch (algorithm props)), (target props); cbn; try reflexivity.
  all: repeat first [apply list_elem_of_here | apply list_elem_of_further].
Qed.

(** The target paragraphs of a render, and the numbers it prints. *)
Lemma target_nodes_render props s :
  List.filter isTargetDisplay (subnodes (render props s))
  = (if isSearch (algorithm props)
     then [Elem "p" (classed "text-xl font-semibold text-gray-700 mb-4")
             [Text "Target: "; optNum (target props)]]
     else [])
  ∧ shownNumbers (render props s)
    = (if isSearch (algorithm props)
       then match target props with Some n => [n] | None => [] end
       else []).
Proof.
  unfold render, targetLine, shownNumbers.
  destruct (getProperty algorithmInfo (algorithm props)) as [|info|name] eqn:Hsel;
    destruct (isSearch (algorithm props)), (target props);
    try (split; reflexivity).
  all: apply getProperty_key in Hsel.
  all: destruct (entry_texts _ _ "Target: " Hsel) as (Hd & Ht & Hs); [by left |].
  all: split; [| reflexivity].
  all: cbn; rewrite Hd; cbn; rewrite Ht; cbn; rewrite Hs; reflexivity.
Qed.

(** C5: the target paragraph is in the rendered tree if and only if the
    algorithm name is exactly "Linear Search" or "Binary Search",
    whatever the target, the steps and the state. For those two names the
    tree has exactly one such paragraph, holding the label and the
    target prop, and the target is the only number the component prints;
    for every other name the tree has no such paragraph and the component
    prints no number, whether or not a target was supplied. *)
Theorem target_display_iff props s :
  (showsTarget (render props s) = true
   ↔ algorithm props = "Linear Search" ∨ algorithm props = "Binary Search")
  ∧ (algorithm props = "Linear Search" ∨ algorithm props = "Binary Search" →
     List.filter isTargetDisplay (subnodes (render props s))
     = [Elem "p" (classed "text-xl font-semibold text-gray-700 mb-4")
          [Text "Target: "; optNum (target props)]]
     ∧ shownNumbers (render props s)
       = match target props with Some n => [n] | None => [] end)
  ∧ (¬ (algorithm props = "Linear Search" ∨ algorithm props = "Binary Search") →
     List.filter isTargetDisplay (subnodes (render props s)) = []
     ∧ shownNumbers (render props s) = []).
Proof.
  destruct (target_nodes_render props s) as [Hparagraphs Hnumbers].
  split; [rewrite showsTarget_render; apply isSearch_spec | split].
  - intros Hsearch%isSearch_spec.
    rewrite Hsearch in Hparagraphs, Hnumbers. by split.
  - intros Hother.
    destruct (isSearch (algorithm props)) eqn:Hsearch.
    + by apply isSearch_spec in Hsearch.
    + by split.
Qed.

(** C9: for the two search names the target paragraph is rendered even
    when no target was supplied; it then holds the label and an
    [undefined] value. *)
Theorem missing_target_still_rendered props s :
  algorithm props = "Linear Search" ∨ algorithm props = "Binary Search" →
  target props = None →
  showsTarget (render props s) = true
  ∧ Elem "p" (classed "text-xl font-semibold text-gray-700 mb-4")
      [Text "Target: "; JsUndefined] ∈ subnodes (render props s).
Proof.
  intros Hsearch%isSearch_spec Hnone.
  split; [by rewrite showsTarget_render |].
  unfold render, targetLine. rewrite Hsearch, Hnone.
  destruct (getProperty algorithmInfo (algorithm props)); cbn.
  all: repeat first [apply list_elem_of_here | apply list_elem_of_further].
Qed.

End Presentation.

(** C4 at the name ["constructor"]: it is not a key of the table, yet
    in every state the render shows the metadata block (labels with empty
    values) and not the fallback prompt. *)
Theorem constructor_name_renders_metadata s :
  algorithmInfo !! algorithm inheritedAlgo = None
  ∧ metadataBlock (SelInherited "constructor") ∈ subnodes (render inheritedAlgo s)
  ∧ showsParagraph "Description:" (render inheritedAlgo s) = true
  ∧ showsParagraph "Time Complexity:" (render inheritedAlgo s) = true
  ∧ showsParagraph "Space Complexity:" (render inheritedAlgo s) = true
  ∧ (fallbackPrompt ∉ subnodes (render inheritedAlgo s))
  ∧ showsParagraph fallbackText (render inheritedAlgo s) = false.
Proof.
  assert (algorithmInfo !! algorithm inheritedAlgo = None) as Hnone by reflexivity.
  destruct (inherited_renders_metadata inheritedAlgo s Hnone eq_refl)
    as (Hblock & Hd & Ht & Hs & _ & Hnot & Hfallback).
  split; [exact Hnone |].
  split; [exact Hblock |].
  split; [exact Hd |].
  split; [exact Ht |].
  split; [exact Hs |].
  split; [exact Hnot | exact Hfallback].
Qed.

(** ** The theorems at concrete sessions *)

(** The autoplay scenario of the specification fails on the code: on five
    steps, four ticks after pressing Play the cursor is 4 but playback has
    not stopped. *)
Lemma autoplay_scenario_counterexample :
  ¬ autoplayStoppedAfter fiveSteps 4 4.
Proof.
  intros (inst & Hrun & _ & Hstopped & _).
  vm_compute in Hrun. injection Hrun as <-. discriminate Hstopped.
Qed.

Lemma autoplay_stops_one_tick_after_last_index_witness :
  len (steps fiveSteps) = 5 ∧ (1 ≤ 5)%nat
  ∧ run fiveSteps mount [Click "Play"; Tick; Tick; Tick; Tick] = Some (playingAt 4)
  ∧ run fiveSteps mount [Click "Play"; Tick; Tick; Tick; Tick; Tick] = Some (stoppedAt 4)
  ∧ tick fiveSteps (stoppedAt 4) = None
  ∧ tick fiveSteps (playingAt 3) = Some (playingAt 4)
  ∧ tick fiveSteps (playingAt 4) = Some (stoppedAt 4).
Proof.
  destruct (autoplay_stops_one_tick_after_last_index fiveSteps 5 eq_refl ltac:(lia))
    as (Hplay & Hstop & Hidle & Hadvance & Hlast).
  split; [reflexivity | split; [lia |]].
  split; [exact (Hplay 4%nat ltac:(lia)) |].
  split; [exact Hstop |].
  split; [exact Hidle |].
  split; [exact (Hadvance 3 ltac:(reflexivity)) | exact (Hlast 4 ltac:(reflexivity))].
Defined.

Lemma cursor_in_bounds_witness :
  0 < len (steps fiveSteps)
  ∧ inRange fiveSteps initialState
  ∧ inRange fiveSteps (next fiveSteps initialState)
  ∧ (∀ evs inst, run fiveSteps mount evs = Some inst →
       is_Some (index (steps fiveSteps) (currentStepIndex (state inst)))).
Proof.
  destruct (cursor_in_bounds fiveSteps ltac:(reflexivity)) as (Hinit & Hops & Hreach).
  split; [reflexivity | split; [exact Hinit |]].
  split; [exact (proj1 (Hops initialState Hinit)) |].
  intros evs inst Hrun. exact (proj2 (Hreach evs inst Hrun)).
Defined.

Lemma next_spec_witness :
  (currentStepIndex (next fiveSteps {| currentStepIndex := 2; isPlaying := true |}) = 3
   ∧ isPlaying (next fiveSteps {| currentStepIndex := 2; isPlaying := true |}) = true)
  ∧ (currentStepIndex (next fiveSteps {| currentStepIndex := 4; isPlaying := true |}) = 4
     ∧ isPlaying (next fiveSteps {| currentStepIndex := 4; isPlaying := true |}) = false)
  ∧ next fiveSteps {| currentStepIndex := 4; isPlaying := false |}
    = {| currentStepIndex := 4; isPlaying := false |}.
Proof.
  split; [| split].
  - exact (proj1 (next_spec fiveSteps {| currentStepIndex := 2; isPlaying := true |})
             ltac:(reflexivity)).
  - exact (proj1 (proj2 (next_spec fiveSteps {| currentStepIndex := 4; isPlaying := true |}))
             ltac:(reflexivity) ltac:(reflexivity)).
  - exact (proj2 (proj2 (next_spec fiveSteps {| currentStepIndex := 4; isPlaying := false |}))
             ltac:(reflexivity) ltac:(reflexivity)).
Defined.

Lemma previous_spec_witness :
  (currentStepIndex (previous {| currentStepIndex := 3; isPlaying := true |}) = 2
   ∧ isPlaying (previous {| currentStepIndex := 3; isPlaying := true |}) = true)
  ∧ previous {| currentStepIndex := 0; isPlaying := true |}
    = {| currentStepIndex := 0; isPlaying := true |}.
Proof.
  split.
  - exact (proj1 (previous_spec {| currentStepIndex := 3; isPlaying := true |})
             ltac:(reflexivity)).
  - exact (proj2 (previous_spec {| currentStepIndex := 0; isPlaying := true |})
             ltac:(reflexivity)).
Defined.

Lemma next_after_previous_witness :
  0 < len (steps fiveSteps) ∧ 1 <= 2 <= len (steps fiveSteps) - 1
  ∧ next fiveSteps (previous {| currentStepIndex := 2; isPlaying := true |})
    = {| currentStepIndex := 2; isPlaying := true |}
  ∧ click fiveSteps "Next" (click fiveSteps "Previous" (playingAt 2)) = playingAt 2.
Proof.
  destruct (next_after_previous fiveSteps {| currentStepIndex := 2; isPlaying := true |}
              ltac:(reflexivity) ltac:(split; discriminate)) as (Hback & Hclicks).
  split; [reflexivity | split; [split; discriminate |]].
  split; [exact Hback |].
  exact (Hclicks (playingAt 2) ltac:(reflexivity) ltac:(reflexivity)).
Defined.

Lemma controls_disabled_witness :
  isDisabled "Next" (render fiveSteps {| currentStepIndex := 4; isPlaying := true |}) = true
  ∧ isDisabled "Previous" (render fiveSteps initialState) = true
  ∧ click fiveSteps "Next" (playingAt 4) = playingAt 4.
Proof.
  split; [| split].
  - apply (controls_disabled fiveSteps {| currentStepIndex := 4; isPlaying := true |}).
    reflexivity.
  - apply (controls_disabled fiveSteps initialState). reflexivity.
  - apply (controls_disabled fiveSteps {| currentStepIndex := 4; isPlaying := true |});
      reflexivity.
Defined.

Lemma target_display_iff_witness :
  (algorithm searchWithTarget = "Linear Search"
   ∨ algorithm searchWithTarget = "Binary Search")
  ∧ showsTarget (render searchWithTarget initialState) = true
  ∧ List.filter isTargetDisplay (subnodes (render searchWithTarget initialState))
    = [Elem "p" (classed "text-xl font-semibold text-gray-700 mb-4")
         [Text "Target: "; Num 7]]
  ∧ shownNumbers (render searchWithTarget initialState) = [7]
  ∧ ¬ (algorithm sortWithTarget = "Linear Search"
       ∨ algorithm sortWithTarget = "Binary Search")
  ∧ showsTarget (render sortWithTarget initialState) ≠ true
  ∧ List.filter isTargetDisplay (subnodes (render sortWithTarget initialState)) = []
  ∧ shownNumbers (render sortWithTarget initialState) = [].
Proof.
  assert (algorithm searchWithTarget = "Linear Search"
          ∨ algorithm searchWithTarget = "Binary Search") as Hsearch
    by (right; reflexivity).
  assert (¬ (algorithm sortWithTarget = "Linear Search"
             ∨ algorithm sortWithTarget = "Binary Search")) as Hsort
    by (intros [Hname | Hname]; discriminate Hname).
  destruct (target_display_iff searchWithTarget initialState) as (Hiff & Hshown & _).
  destruct (target_display_iff sortWithTarget initialState) as (Hiff' & _ & Hhidden).
  split; [exact Hsearch |].
  split; [exact (proj2 Hiff Hsearch) |].
  split; [exact (proj1 (Hshown Hsearch)) |].
  split; [exact (proj2 (Hshown Hsearch)) |].
  split; [exact Hsort |].
  split; [exact (λ H, Hsort (proj1 Hiff' H)) |].
  split; [exact (proj1 (Hhidden Hsort)) | exact (proj2 (Hhidden Hsort))].
Defined.

Lemma missing_target_still_rendered_witness :
  (algorithm searchWithoutTarget = "Linear Search"
   ∨ algorithm searchWithoutTarget = "Binary Search")
  ∧ target searchWithoutTarget = None
  ∧ showsTarget (render searchWithoutTarget initialState) = true
  ∧ Elem "p" (classed "text-xl font-semibold text-gray-700 mb-4")
      [Text "Target: "; JsUndefined] ∈ subnodes (render searchWithoutTarget initialState).
Proof.
  split; [left; reflexivity | split; [reflexivity |]].
  apply (missing_target_still_rendered searchWithoutTarget initialState);
    [left |]; reflexivity.
Defined.

(** The two rendering scenarios of the specification. *)

Example unknown_algo_scenario (s : PlaybackState) :
  showsParagraph fallbackText (render unknownAlgo s) = true
  ∧ showsParagraph "Description:" (render unknownAlgo s) = false
  ∧ showsParagraph "Time Complexity:" (render unknownAlgo s) = false
  ∧ showsParagraph "Space Complexity:" (render unknownAlgo s) = false.
Proof.
  destruct (unknown_renders_fallback unknownAlgo s eq_refl eq_refl)
    as (_ & Hfallback & Hd & Ht & Hs).
  split; [exact Hfallback | split; [exact Hd | split; [exact Ht | exact Hs]]].
Qed.

Example bubble_sort_scenario (s : PlaybackState) :
  showsTarget (render fiveSteps s) = false
  ∧ Elem "p" (classed "text-gray-600") [Text "0(n^2)"] ∈ subnodes (render fiveSteps s)
  ∧ Elem "p" (classed "text-gray-600") [Text "0(1)"] ∈ subnodes (render fiveSteps s)
  ∧ showsParagraph fallbackText (render fiveSteps s) = false.
Proof.
  assert (∃ info, algorithmInfo !! algorithm fiveSteps = Some info
                  ∧ timeComplexity info = "0(n^2)" ∧ spaceComplexity info = "0(1)")
    as (info & Hkey & Htime & Hspace) by (eexists; repeat split; reflexivity).
  destruct (key_renders_metadata fiveSteps s info Hkey) as (_ & _ & Ht & Hs & Hfallback).
  rewrite Htime in Ht. rewrite Hspace in Hs.
  split; [by rewrite showsTarget_render | split; [exact Ht | split; [exact Hs | exact Hfallback]]].
Qed.

(** * Further properties of the component *)

(** ** Buttons by label *)

Section Labels.

Context {Step number JSXElement : Type}.
Implicit Types (props : AlgorithmVisualizerProps Step number JSXElement).
Implicit Types (s : PlaybackState) (inst : AlgorithmVisualizer).

Local Arguments String.eqb : simpl nomatch.

(** Which button a label finds. *)
Lemma findButton_label label props s a :
  findButton label (render props s) = Some a →
  (label = toggleLabel s ∧ a = playAttrs s)
  ∨ (label = "Next" ∧ a = nextAttrs props s)
  ∨ (label = "Previous" ∧ a = previousAttrs s)
  ∨ (label = "Restart" ∧ a = restartAttrs).
Proof.
  unfold findButton. rewrite find_button_controls.
  unfold controls. cbn.
  destruct (String.eqb (if isPlaying s then "Pause" else "Play") label) eqn:Hplay.
  { apply String.eqb_eq in Hplay. intros ?; simplify_eq. left. by split. }
  destruct (String.eqb "Next" label) eqn:Hnext.
  { apply String.eqb_eq in Hnext. intros ?; simplify_eq. right; left. by split. }
  destruct (String.eqb "Previous" label) eqn:Hprev.
  { apply String.eqb_eq in Hprev. intros ?; simplify_eq. do 2 right; left. by split. }
  destruct (String.eqb "Restart" label) eqn:Hrestart; [| done].
  apply String.eqb_eq in Hrestart. intros ?; simplify_eq. do 3 right. by split.
Qed.

Lemma findButton_absent label props s :
  label ≠ toggleLabel s → label ≠ "Next" → label ≠ "Previous" → label ≠ "Restart" →
  findButton label (render props s) = None.
Proof.
  intros Hplay Hnext Hprev Hrestart.
  destruct (findButton label (render props s)) as [a|] eqn:Hfind; [| done].
  apply findButton_label in Hfind.
  destruct Hfind as [[? _] | [[? _] | [[? _] | [? _]]]]; contradiction.
Qed.

(** What a click with a given label does, label by label. *)
Lemma click_label props label inst :
  (label = toggleLabel (state inst)
   ∧ click props label inst = commit inst (togglePlay (state inst)))
  ∨ (label = "Next"
     ∧ click props label inst =
         if currentStepIndex (state inst) =? len (steps props) - 1 then inst
         else commit inst (nextStep props (state inst)))
  ∨ (label = "Previous"
     ∧ click props label inst =
         if currentStepIndex (state inst) =? 0 then inst
         else commit inst (prevStep (state inst)))
  ∨ (label = "Restart" ∧ click props label inst = commit inst restart)
  ∨ click props label inst = inst.
Proof.
  unfold click.
  destruct (findButton label (render props (state inst))) as [a|] eqn:Hfind;
    [| by do 4 right].
  apply findButton_label in Hfind as [[-> ->] | [[-> ->] | [[-> ->] | [-> ->]]]].
  - left. by split.
  - right; left. by split.
  - do 2 right; left. by split.
  - do 3 right; left. by split.
Qed.

Lemma click_coherent props label inst :
  coherent inst → coherent (click props label inst).
Proof.
  intros Hco.
  destruct (click_cases props label inst) as [-> | [-> | [-> | [-> | ->]]]];
    [done | by apply commit_coherent ..].
Qed.

Lemma tick_state props inst inst' :
  coherent inst → tick props inst = Some inst' →
  isPlaying (state inst) = true
  ∧ inst' = commit inst (nextStep props (state inst))
  ∧ coherent inst'.
Proof.
  intros Hco. rewrite tick_coherent by done.
  destruct (isPlaying (state inst)); [| done].
  intros [= <-]. split; [done | split; [done | by apply commit_coherent]].
Qed.

Lemma fire_coherent props inst ev inst' :
  coherent inst → fire props inst ev = Some inst' → coherent inst'.
Proof.
  intros Hco. destruct ev as [label|]; cbn.
  - intros [= <-]. by apply click_coherent.
  - intros Htick. by apply (tick_state props inst inst' Hco Htick).
Qed.

(** The interval invariant holds throughout every session, whatever the
    steps. *)
Lemma run_coherent props evs : ∀ inst inst',
  coherent inst → run props inst evs = Some inst' → coherent inst'.
Proof.
  induction evs as [|ev evs IH]; intros inst inst' Hco; cbn.
  - by intros [= <-].
  - destruct (fire props inst ev) as [inst1|] eqn:Hfire; [| done]. cbn.
    apply IH. by eapply fire_coherent.
Qed.

End Labels.

(** ** Sessions on any step sequence *)

Section MoreSessions.

Context {Step number JSXElement : Type}.
Implicit Types (props : AlgorithmVisualizerProps Step number JSXElement).
Implicit Types (s : PlaybackState) (inst : AlgorithmVisualizer).

(** X1: at every point of every session, whatever the steps, an interval
    is armed exactly while playing and its callback is the [nextStep] of
    the current render; so a tick can fire exactly while playing, and a
    tick that fires does to the state what [next] does. *)
Theorem interval_tracks_render props evs inst :
  run props mount evs = Some inst →
  interval inst = (if isPlaying (state inst) then Some (state inst) else None)
  ∧ (tick props inst = None ↔ isPlaying (state inst) = false)
  ∧ (∀ inst', tick props inst = Some inst' → state inst' = next props (state inst)).
Proof.
  intros Hrun.
  assert (coherent inst) as Hco by (eapply run_coherent; [apply mount_coherent | done]).
  split; [exact Hco | split].
  - rewrite tick_coherent by done. by destruct (isPlaying (state inst)).
  - intros inst' Htick.
    destruct (tick_state props inst inst' Hco Htick) as (_ & -> & _).
    apply state_commit.
Qed.

(** The playing flag after each handler. *)
Lemma next_isPlaying props s :
  isPlaying (next props s) = isPlaying s ∨ isPlaying (next props s) = false.
Proof.
  destruct (Z.lt_ge_cases (currentStepIndex s) (len (steps props) - 1)).
  - left. by rewrite next_advance.
  - right. by rewrite next_stop by lia.
Qed.

Lemma previous_isPlaying s : isPlaying (previous s) = isPlaying s.
Proof.
  destruct (Z.lt_ge_cases 0 (currentStepIndex s)).
  - by rewrite previous_back.
  - by rewrite previous_floor by lia.
Qed.

(** X3: the two stepping buttons never touch the playing flag: a click
    on Previous in any state, and a click on Next in any state whose cursor
    is not beyond the last index (there the button is disabled at the last
    index and advances below it). *)
Theorem step_buttons_keep_playing_flag props inst :
  isPlaying (state (click props "Previous" inst)) = isPlaying (state inst)
  ∧ (currentStepIndex (state inst) <= len (steps props) - 1 →
     isPlaying (state (click props "Next" inst)) = isPlaying (state inst)).
Proof.
  split.
  - rewrite click_previous.
    destruct (currentStepIndex (state inst) =? 0); [done |].
    rewrite state_commit. apply previous_isPlaying.
  - intros Hle. rewrite click_next.
    destruct (Z.eqb_spec (currentStepIndex (state inst)) (len (steps props) - 1)); [done |].
    rewrite state_commit.
    change (applyAll (nextStep props (state inst)) (state inst))
      with (next props (state inst)).
    rewrite next_advance by lia. done.
Qed.

(** X4: playback is only ever started by the Play button: if an event
    takes a paused component to a playing one, the event is a click on the
    button labelled "Play". *)
Theorem only_play_starts_playback props inst ev inst' :
  fire props inst ev = Some inst' →
  isPlaying (state inst) = false →
  isPlaying (state inst') = true →
  ev = Click "Play".
Proof.
  intros Hfire Hpaused Hplaying. destruct ev as [label|]; cbn in Hfire.
  - injection Hfire as <-.
    destruct (click_label props label inst)
      as [[-> _] | [[_ Hc] | [[_ Hc] | [[_ Hc] | Hc]]]].
    + unfold toggleLabel. by rewrite Hpaused.
    + rewrite Hc in Hplaying.
      destruct (currentStepIndex (state inst) =? len (steps props) - 1); [congruence |].
      rewrite state_commit in Hplaying.
      destruct (next_isPlaying props (state inst)) as [Hn | Hn];
        unfold next in Hn; congruence.
    + rewrite Hc in Hplaying.
      destruct (currentStepIndex (state inst) =? 0); [congruence |].
      rewrite state_commit in Hplaying.
      pose proof (previous_isPlaying (state inst)) as Hp. unfold previous in Hp. congruence.
    + rewrite Hc in Hplaying. discriminate Hplaying.
    + congruence.
  - unfold tick in Hfire. destruct (interval inst) as [r|]; [| done].
    injection Hfire as <-. rewrite state_commit in Hplaying.
    unfold nextStep in Hplaying.
    destruct (currentStepIndex r <? len (steps props) - 1); cbn in Hplaying; congruence.
Qed.

(** X5: no event skips a step: with the interval invariant in place, an
    event leaves the cursor where it was, moves it by exactly one, or is a
    click on Restart and puts it at 0. *)
Theorem cursor_moves_one_step props inst ev inst' :
  coherent inst →
  fire props inst ev = Some inst' →
  currentStepIndex (state inst') = currentStepIndex (state inst)
  ∨ currentStepIndex (state inst') = currentStepIndex (state inst) + 1
  ∨ currentStepIndex (state inst') = currentStepIndex (state inst) - 1
  ∨ (ev = Click "Restart" ∧ currentStepIndex (state inst') = 0).
Proof.
  assert (∀ s, currentStepIndex (next props s) = currentStepIndex s
               ∨ currentStepIndex (next props s) = currentStepIndex s + 1) as Hnext.
  { intros s. destruct (Z.lt_ge_cases (currentStepIndex s) (len (steps props) - 1)).
    - right. by rewrite next_advance.
    - left. by rewrite next_stop by lia. }
  assert (∀ s, currentStepIndex (previous s) = currentStepIndex s
               ∨ currentStepIndex (previous s) = currentStepIndex s - 1) as Hprev.
  { intros s. destruct (Z.lt_ge_cases 0 (currentStepIndex s)).
    - right. by rewrite previous_back.
    - left. by rewrite previous_floor by lia. }
  intros Hco Hfire. destruct ev as [label|]; cbn in Hfire.
  - injection Hfire as <-.
    destruct (click_label props label inst)
      as [[_ Hc] | [[_ Hc] | [[_ Hc] | [[-> Hc] | Hc]]]]; rewrite Hc.
    + by left.
    + destruct (currentStepIndex (state inst) =? len (steps props) - 1); [by left |].
      rewrite state_commit. destruct (Hnext (state inst)); [by left | right; by left].
    + destruct (currentStepIndex (state inst) =? 0); [by left |].
      rewrite state_commit. destruct (Hprev (state inst)); [by left | do 2 right; by left].
    + by do 3 right.
    + by left.
  - destruct (tick_state props inst inst' Hco Hfire) as (_ & -> & _).
    rewrite state_commit. destruct (Hnext (state inst)); [by left | right; by left].
Qed.

End MoreSessions.

(** ** How the controls compose *)

Section Composition.

Context {Step number JSXElement : Type}.
Implicit Types (props : AlgorithmVisualizerProps Step number JSXElement).
Implicit Types (s : PlaybackState) (inst : AlgorithmVisualizer).

Lemma coherent_eta inst :
  coherent inst → inst = {| state := state inst; interval := effect (state inst) |}.
Proof. unfold coherent. intros <-. by destruct inst. Qed.

(** A commit that changes the state, seen from outside. *)
Lemma commit_changed inst us :
  applyAll us (state inst) ≠ state inst →
  commit inst us =
    {| state := applyAll us (state inst); interval := effect (applyAll us (state inst)) |}.
Proof. intros Hne. unfold commit. cbn. by rewrite decide_False. Qed.

Lemma click_restart_mount props inst :
  coherent inst → click props "Restart" inst = mount.
Proof.
  intros Hco. rewrite click_restart. unfold commit. cbn.
  case_decide as Heq; [| done].
  unfold mount, initialState. rewrite Hco, <- Heq. done.
Qed.

(** X6: Restart forgets the session: whatever happened before, after a
    click on Restart the component is as freshly mounted (cursor 0, paused,
    no interval), so what follows runs as it would from the start. *)
Theorem restart_resets_session props evs evs' inst :
  run props mount evs = Some inst →
  click props "Restart" inst = mount
  ∧ run props mount (evs ++ Click "Restart" :: evs')%list = run props mount evs'.
Proof.
  intros Hrun.
  assert (coherent inst) as Hco by (eapply run_coherent; [apply mount_coherent | done]).
  split; [by apply click_restart_mount |].
  rewrite (run_app props evs _ mount inst Hrun). cbn.
  by rewrite click_restart_mount.
Qed.

Lemma click_toggle props inst :
  coherent inst →
  click props (toggleLabel (state inst)) inst =
    {| state := doTogglePlay (state inst); interval := effect (doTogglePlay (state inst)) |}.
Proof.
  intros Hco. unfold toggleLabel. rewrite click_play. apply commit_changed.
  destruct (state inst) as [c []]; cbn; by intros [=].
Qed.

(** X7: Play/Pause is an involution on the whole component: clicking
    the toggle button twice (its label changes in between) gives back the
    same state and the same interval; and after a click on Pause no tick
    can fire. *)
Theorem pause_resume props inst :
  coherent inst →
  click props (toggleLabel (state (click props (toggleLabel (state inst)) inst)))
    (click props (toggleLabel (state inst)) inst) = inst
  ∧ (isPlaying (state inst) = true → tick props (click props "Pause" inst) = None).
Proof.
  intros Hco. split.
  - rewrite (click_toggle props inst Hco). rewrite click_toggle by done. cbn [state].
    etrans; [| symmetry; exact (coherent_eta inst Hco)].
    destruct (state inst) as [c []]; reflexivity.
  - intros Hplaying.
    pose proof (click_toggle props inst Hco) as Hclick.
    unfold toggleLabel in Hclick. rewrite Hplaying in Hclick. rewrite Hclick.
    unfold tick, effect. cbn. by rewrite Hplaying.
Qed.

Lemma ticks_while_paused props c (k : nat) :
  (0 < k)%nat → run props (stoppedAt c) (replicate k Tick) = None.
Proof. destruct k; [lia | done]. Qed.

Lemma press_play_at props c :
  run props (stoppedAt c) [Click "Play"] = Some (playingAt c).
Proof.
  cbn [run fire mbind option_bind]. f_equal.
  etrans; [exact (click_play props (stoppedAt c)) |].
  unfold commit, playingAt. cbn. by rewrite decide_False.
Qed.

(** X8: autoplay started at any index [c] not beyond the last one ends
    by itself: the ticks advance one step each up to the last index, tick
    number [length - c] stops playback there, and no longer run of ticks
    can happen. *)
Theorem autoplay_from_any_index props c :
  c <= len (steps props) - 1 →
  (∀ k : nat, c + Z.of_nat k <= len (steps props) - 1 →
     run props (stoppedAt c) (Click "Play" :: replicate k Tick)
     = Some (playingAt (c + Z.of_nat k)))
  ∧ run props (stoppedAt c)
      (Click "Play" :: replicate (Z.to_nat (len (steps props) - c)) Tick)
    = Some (stoppedAt (len (steps props) - 1))
  ∧ (∀ k : nat, len (steps props) - c < Z.of_nat k →
       run props (stoppedAt c) (Click "Play" :: replicate k Tick) = None).
Proof.
  intros Hc.
  assert (∀ k : nat, c + Z.of_nat k <= len (steps props) - 1 →
     run props (stoppedAt c) (Click "Play" :: replicate k Tick)
     = Some (playingAt (c + Z.of_nat k))) as Hplay.
  { intros k Hk.
    change (Click "Play" :: replicate k Tick) with ([Click "Play"] ++ replicate k Tick)%list.
    rewrite (run_app props [Click "Play"] _ _ _ (press_play_at props c)).
    by apply autoplay_advances. }
  set (m := Z.to_nat (len (steps props) - 1 - c)).
  assert (run props (stoppedAt c) (Click "Play" :: replicate (S m) Tick)
          = Some (stoppedAt (len (steps props) - 1))) as Hstop.
  { replace (Click "Play" :: replicate (S m) Tick)
      with ((Click "Play" :: replicate m Tick) ++ [Tick])%list.
    - rewrite (run_app props _ _ _ _ (Hplay m ltac:(lia))).
      cbn [run fire]. rewrite autoplay_stops by lia. cbn.
      do 2 f_equal. lia.
    - cbn. f_equal. by rewrite <- replicate_S_end. }
  split; [done | split].
  - replace (Z.to_nat (len (steps props) - c)) with (S m) by lia. done.
  - intros k Hk.
    replace k with (S m + (k - S m))%nat by lia.
    rewrite replicate_add.
    change (Click "Play" :: (replicate (S m) Tick ++ replicate (k - S m) Tick))%list
      with ((Click "Play" :: replicate (S m) Tick) ++ replicate (k - S m) Tick)%list.
    rewrite (run_app props _ _ _ _ Hstop).
    apply ticks_while_paused. lia.
Qed.

(** The paused component at index [c] after one click on a stepping
    button. *)
Lemma click_next_paused props c :
  c <= len (steps props) - 1 →
  click props "Next" (stoppedAt c) = stoppedAt (Z.min (c + 1) (len (steps props) - 1)).
Proof.
  intros Hc. rewrite click_next. cbn [state stoppedAt currentStepIndex].
  destruct (Z.eqb_spec c (len (steps props) - 1)) as [-> | Hne].
  - f_equal. lia.
  - rewrite commit_changed.
    + cbn [state stoppedAt]. unfold nextStep. cbn [currentStepIndex].
      destruct (Z.ltb_spec c (len (steps props) - 1)); [| lia].
      cbn. unfold stoppedAt. do 3 f_equal. lia.
    + cbn [state stoppedAt]. unfold nextStep. cbn [currentStepIndex].
      destruct (Z.ltb_spec c (len (steps props) - 1)); [| lia].
      cbn. intros [=]. lia.
Qed.

Lemma click_previous_paused props c :
  0 <= c →
  click props "Previous" (stoppedAt c) = stoppedAt (Z.max 0 (c - 1)).
Proof.
  intros Hc. rewrite click_previous. cbn [state stoppedAt currentStepIndex].
  destruct (Z.eqb_spec c 0) as [-> | Hne]; [done |].
  rewrite commit_changed.
  - cbn [state stoppedAt]. unfold prevStep. cbn [currentStepIndex].
    destruct (Z.gtb_spec c 0); [| lia].
    cbn. unfold stoppedAt. do 3 f_equal. lia.
  - cbn [state stoppedAt]. unfold prevStep. cbn [currentStepIndex].
    destruct (Z.gtb_spec c 0); [| lia].
    cbn. intros [=]. lia.
Qed.

Lemma next_clicks props (k : nat) : ∀ c,
  c <= len (steps props) - 1 →
  run props (stoppedAt c) (replicate k (Click "Next"))
  = Some (stoppedAt (Z.min (c + Z.of_nat k) (len (steps props) - 1))).
Proof.
  induction k as [|k IH]; intros c Hc.
  - cbn. do 2 f_equal. lia.
  - cbn [replicate run fire mbind option_bind].
    rewrite click_next_paused by done. rewrite IH by lia.
    do 2 f_equal. lia.
Qed.

Lemma previous_clicks props (k : nat) : ∀ c,
  0 <= c →
  run props (stoppedAt c) (replicate k (Click "Previous"))
  = Some (stoppedAt (Z.max 0 (c - Z.of_nat k))).
Proof.
  induction k as [|k IH]; intros c Hc.
  - cbn. do 2 f_equal. lia.
  - cbn [replicate run fire mbind option_bind].
    rewrite click_previous_paused by done. rewrite IH by lia.
    do 2 f_equal. lia.
Qed.

(** X13: manual stepping saturates at both ends. On a non-empty
    sequence, [k] clicks on Next from the start leave the paused component
    at index [min k (length-1)], and [j] clicks on Previous from there
    leave it at [max 0 (that index - j)]; playback is never started. *)
Theorem stepping_saturates props (k j : nat) :
  0 < len (steps props) →
  run props mount (replicate k (Click "Next"))
  = Some (stoppedAt (Z.min (Z.of_nat k) (len (steps props) - 1)))
  ∧ run props mount (replicate k (Click "Next") ++ replicate j (Click "Previous"))%list
    = Some (stoppedAt (Z.max 0 (Z.min (Z.of_nat k) (len (steps props) - 1) - Z.of_nat j))).
Proof.
  intros Hlen.
  assert (run props mount (replicate k (Click "Next"))
          = Some (stoppedAt (Z.min (Z.of_nat k) (len (steps props) - 1)))) as Hnext.
  { change mount with (stoppedAt 0). by rewrite next_clicks by lia. }
  split; [done |].
  rewrite (run_app props _ _ _ _ Hnext). apply previous_clicks. lia.
Qed.

(** X14: [next] followed by [previous] is the identity wherever [next]
    advances, that is for a cursor from 0 up to the index before the last;
    on the component the two clicks also restore the interval. *)
Theorem previous_after_next props s :
  0 <= currentStepIndex s < len (steps props) - 1 →
  previous (next props s) = s
  ∧ (∀ inst, state inst = s → coherent inst →
       click props "Previous" (click props "Next" inst) = inst).
Proof.
  intros Hc.
  assert (previous (next props s) = s) as Hback.
  { rewrite next_advance by lia. rewrite previous_back by (cbn; lia).
    destruct s as [c p]. cbn. f_equal. lia. }
  split; [done |].
  intros inst <- Hco.
  rewrite click_next.
  destruct (Z.eqb_spec (currentStepIndex (state inst)) (len (steps props) - 1)); [lia |].
  assert (applyAll (nextStep props (state inst)) (state inst) = next props (state inst))
    as Hn by done.
  rewrite commit_changed.
  2: { rewrite Hn, next_advance by lia. destruct (state inst) as [c p]. cbn. intros [=]. lia. }
  rewrite Hn. rewrite click_previous. cbn [state].
  rewrite next_advance at 1 by lia. cbn [currentStepIndex].
  destruct (Z.eqb_spec (currentStepIndex (state inst) + 1) 0); [lia |].
  rewrite commit_changed; cbn [state].
  - change (applyAll (prevStep (next props (state inst))) (next props (state inst)))
      with (previous (next props (state inst))).
    rewrite Hback. symmetry. by apply coherent_eta.
  - change (applyAll (prevStep (next props (state inst))) (next props (state inst)))
      with (previous (next props (state inst))).
    rewrite Hback. rewrite next_advance by lia.
    destruct (state inst) as [c p]. cbn. intros [=]. lia.
Qed.

(** X12: a click whose label no button of the current render carries is
    not delivered; in particular "Pause" while paused and "Play" while
    playing do nothing. *)
Theorem absent_label_click_ignored props label inst :
  label ≠ toggleLabel (state inst) →
  label ≠ "Next" → label ≠ "Previous" → label ≠ "Restart" →
  click props label inst = inst.
Proof.
  intros Hplay Hnext Hprev Hrestart. unfold click.
  by rewrite findButton_absent.
Qed.

End Composition.

(** ** The step view, the empty sequence, and the two panels *)

Section MorePresentation.

Context {Step number JSXElement : Type}.
Implicit Types (props : AlgorithmVisualizerProps Step number JSXElement).
Implicit Types (s : PlaybackState) (inst : AlgorithmVisualizer) (info : AlgorithmInfo).

Local Arguments String.eqb : simpl nomatch.

(** Every render calls [renderStep] once, on [steps[currentStepIndex]],
    the index and the length (line 171). *)
Lemma rendered_in_tree props s :
  Rendered (renderStep props (index (steps props) (currentStepIndex s))
              (currentStepIndex s) (len (steps props)))
    ∈ subnodes (render props s)
  ∧ countRendered (render props s) = 1%nat.
Proof.
  unfold countRendered, render, targetLine.
  destruct (getProperty algorithmInfo (algorithm props)) as [|info|name];
    destruct (isSearch (algorithm props)), (target props).
  all: split; [| reflexivity].
  all: cbn; repeat first [apply list_elem_of_here | apply list_elem_of_further].
Qed.

(** X11: on a non-empty sequence, in every state a session reaches, the
    tree holds exactly one result of the caller's [renderStep], and the
    call that made it received an actual step of the sequence, its index,
    and the length, with the index inside the sequence. *)
Theorem renderStep_receives_current_step props evs inst :
  0 < len (steps props) →
  run props mount evs = Some inst →
  ∃ step,
    steps props !! Z.to_nat (currentStepIndex (state inst)) = Some step
    ∧ 0 <= currentStepIndex (state inst) < len (steps props)
    ∧ Rendered (renderStep props (Some step)
                  (currentStepIndex (state inst)) (len (steps props)))
        ∈ subnodes (render props (state inst))
    ∧ countRendered (render props (state inst)) = 1%nat.
Proof.
  intros Hlen Hrun.
  assert (coherent inst ∧ inRange props (state inst)) as [_ Hin].
  { eapply run_invariant; [done | | done].
    split; [apply mount_coherent | by apply initial_inRange]. }
  destruct (index_inRange props (state inst) Hin) as [step Hstep].
  destruct (rendered_in_tree props (state inst)) as [Htree Hone].
  rewrite Hstep in Htree. exists step.
  unfold index in Hstep. unfold inRange in Hin.
  destruct (Z.ltb_spec (currentStepIndex (state inst)) 0); [lia |].
  split; [done | split; [lia | by split]].
Qed.

(** With no steps the cursor cannot leave 0. *)
Lemma fire_cursor_empty props inst ev inst' :
  steps props = [] →
  coherent inst ∧ currentStepIndex (state inst) = 0 →
  fire props inst ev = Some inst' →
  coherent inst' ∧ currentStepIndex (state inst') = 0.
Proof.
  intros Hempty [Hco Hzero] Hfire.
  split; [by eapply fire_coherent |].
  assert (currentStepIndex (next props (state inst)) = 0) as Hnext.
  { rewrite next_stop; [done |]. unfold len. rewrite Hempty. cbn. lia. }
  assert (currentStepIndex (previous (state inst)) = 0) as Hprev.
  { rewrite previous_floor; [done | lia]. }
  destruct ev as [label|]; cbn in Hfire.
  - injection Hfire as <-.
    destruct (click_cases props label inst) as [-> | [-> | [-> | [-> | ->]]]];
      done.
  - destruct (tick_state props inst inst' Hco Hfire) as (_ & -> & _). done.
Qed.

Lemma run_cursor_empty props evs : ∀ inst inst',
  steps props = [] →
  coherent inst ∧ currentStepIndex (state inst) = 0 →
  run props inst evs = Some inst' →
  coherent inst' ∧ currentStepIndex (state inst') = 0.
Proof.
  induction evs as [|ev evs IH]; intros inst inst' Hempty Hinv; cbn.
  - by intros [= <-].
  - destruct (fire props inst ev) as [inst1|] eqn:Hfire; [| done]. cbn.
    apply IH; [done |]. by eapply fire_cursor_empty.
Qed.

(** X2: the empty sequence is not guarded. Throughout every session on
    it the cursor stays 0, [steps[cursor]] is [undefined] and that is what
    the caller's [renderStep] is handed, with index 0 and length 0 (what
    the callback does with it is the caller's code and is not modelled);
    Previous is disabled, and Next is enabled (0 is not [length - 1 = -1])
    although there is nowhere to go: a click on it leaves the cursor and
    clears the playing flag. *)
Theorem empty_steps_session props evs inst :
  steps props = [] →
  run props mount evs = Some inst →
  currentStepIndex (state inst) = 0
  ∧ index (steps props) (currentStepIndex (state inst)) = None
  ∧ Rendered (renderStep props None 0 0) ∈ subnodes (render props (state inst))
  ∧ isDisabled "Previous" (render props (state inst)) = true
  ∧ isDisabled "Next" (render props (state inst)) = false
  ∧ state (click props "Next" inst) = {| currentStepIndex := 0; isPlaying := false |}.
Proof.
  intros Hempty Hrun.
  assert (coherent inst ∧ currentStepIndex (state inst) = 0) as [_ Hzero].
  { eapply run_cursor_empty; [done | | done]. by split. }
  assert (len (steps props) = 0) as Hlen by (unfold len; by rewrite Hempty).
  split; [done |].
  split; [by rewrite Hempty, Hzero |].
  split.
  { destruct (rendered_in_tree props (state inst)) as [Htree _].
    rewrite Hzero, Hlen in Htree. by rewrite Hempty in Htree. }
  unfold isDisabled. rewrite findButton_next, findButton_previous. cbn.
  split; [by apply Z.eqb_eq | split].
  - apply Z.eqb_neq. lia.
  - rewrite click_next.
    destruct (Z.eqb_spec (currentStepIndex (state inst)) (len (steps props) - 1)); [lia |].
    rewrite state_commit.
    change (applyAll (nextStep props (state inst)) (state inst))
      with (next props (state inst)).
    rewrite next_stop by lia. by rewrite Hzero.
Qed.

(** None of the fixed strings of the table is one of the three labels
    of the metadata block. *)
Lemma entry_labels name info text :
  algorithmInfo !! name = Some info →
  text = "Description:" ∨ text = "Time Complexity:" ∨ text = "Space Complexity:" →
  String.eqb (description info) text = false
  ∧ String.eqb (timeComplexity info) text = false
  ∧ String.eqb (spaceComplexity info) text = false.
Proof.
  intros Hin%algorithmInfo_entry Htext.
  assert (Forall (λ e : string * AlgorithmInfo,
            ∀ t, t = "Description:" ∨ t = "Time Complexity:" ∨ t = "Space Complexity:" →
              String.eqb (description e.2) t = false
              ∧ String.eqb (timeComplexity e.2) t = false
              ∧ String.eqb (spaceComplexity e.2) t = false) algorithmInfoEntries) as Hall.
  { repeat constructor; destruct H as [-> | [-> | ->]]; reflexivity. }
  rewrite Forall_forall in Hall. by apply (Hall _ Hin).
Qed.

Lemma showsParagraph_render props s :
  showsParagraph fallbackText (render props s)
  = negb (truthy (getProperty algorithmInfo (algorithm props)))
  ∧ showsParagraph "Description:" (render props s)
    = truthy (getProperty algorithmInfo (algorithm props))
  ∧ showsParagraph "Time Complexity:" (render props s)
    = truthy (getProperty algorithmInfo (algorithm props))
  ∧ showsParagraph "Space Complexity:" (render props s)
    = truthy (getProperty algorithmInfo (algorithm props)).
Proof.
  unfold render, targetLine, showsParagraph.
  destruct (getProperty algorithmInfo (algorithm props)) as [|info|name] eqn:Hsel;
    destruct (isSearch (algorithm props)), (target props);
    try (repeat split; reflexivity).
  all: apply getProperty_key in Hsel.
  all: destruct (entry_texts _ _ fallbackText Hsel) as (Hd0 & Ht0 & Hs0); [by right |].
  all: destruct (entry_labels _ _ "Description:" Hsel) as (Hd1 & Ht1 & Hs1); [by left |].
  all: destruct (entry_labels _ _ "Time Complexity:" Hsel) as (Hd2 & Ht2 & Hs2);
    [right; by left |].
  all: destruct (entry_labels _ _ "Space Complexity:" Hsel) as (Hd3 & Ht3 & Hs3);
    [by do 2 right |].
  all: repeat split; cbn.
  all: rewrite ?Hd0, ?Ht0, ?Hs0, ?Hd1, ?Ht1, ?Hs1, ?Hd2, ?Ht2, ?Hs2, ?Hd3, ?Ht3, ?Hs3.
  all: reflexivity.
Qed.

(** X9: every render shows exactly one of the two panels: the fallback
    prompt is there if and only if the "Description:" label is not, and the
    three labels of the metadata block come and go together. *)
Theorem metadata_xor_fallback props s :
  showsParagraph fallbackText (render props s)
  = negb (showsParagraph "Description:" (render props s))
  ∧ showsParagraph "Time Complexity:" (render props s)
    = showsParagraph "Description:" (render props s)
  ∧ showsParagraph "Space Complexity:" (render props s)
    = showsParagraph "Description:" (render props s).
Proof.
  destruct (showsParagraph_render props s) as (-> & -> & -> & ->). done.
Qed.


End MorePresentation.

(** ** Playback and presentation together *)

Section Reachability.

Context {Step number JSXElement : Type}.
Implicit Types (props : AlgorithmVisualizerProps Step number JSXElement).
Implicit Types (s : PlaybackState) (inst : AlgorithmVisualizer).

(** X15: stepping and playing never change the panels: whether the
    target line, the fallback prompt and the metadata labels are shown is
    the same in every playback state of a session. *)
Theorem panels_independent_of_playback props s s' :
  showsTarget (render props s) = showsTarget (render props s')
  ∧ showsParagraph fallbackText (render props s)
    = showsParagraph fallbackText (render props s')
  ∧ showsParagraph "Description:" (render props s)
    = showsParagraph "Description:" (render props s').
Proof.
  rewrite !showsTarget_render.
  destruct (showsParagraph_render props s) as (-> & -> & _).
  destruct (showsParagraph_render props s') as (-> & -> & _).
  done.
Qed.

(** X16: on a non-empty sequence the sessions reach exactly the states
    of the data model: a component state is reached by some sequence of
    clicks and ticks if and only if its cursor is within [0, length-1] and
    its interval is the one of its own render (armed exactly when
    playing). *)
Theorem reachable_iff_in_range props inst :
  0 < len (steps props) →
  (∃ evs, run props mount evs = Some inst)
  ↔ coherent inst ∧ inRange props (state inst).
Proof.
  intros Hlen. split.
  - intros [evs Hrun]. eapply run_invariant; [done | | done].
    split; [apply mount_coherent | by apply initial_inRange].
  - intros [Hco Hin]. unfold inRange in Hin.
    set (c := currentStepIndex (state inst)) in *.
    assert (run props mount (replicate (Z.to_nat c) (Click "Next")) = Some (stoppedAt c))
      as Hnext.
    { change mount with (stoppedAt 0). rewrite next_clicks by lia.
      do 2 f_equal. lia. }
    destruct (isPlaying (state inst)) eqn:Hp.
    + exists (replicate (Z.to_nat c) (Click "Next") ++ [Click "Play"])%list.
      rewrite (run_app props _ _ _ _ Hnext), press_play_at. f_equal.
      rewrite (coherent_eta inst Hco). unfold playingAt, effect. subst c.
      destruct (state inst) as [c p]. cbn in *. by subst p.
    + exists (replicate (Z.to_nat c) (Click "Next")).
      rewrite Hnext. f_equal.
      rewrite (coherent_eta inst Hco). unfold stoppedAt, effect. subst c.
      destruct (state inst) as [c p]. cbn in *. by subst p.
Qed.

End Reachability.

(** ** The further properties at concrete sessions *)

Lemma interval_tracks_render_witness :
  run fiveSteps mount [Click "Play"; Tick] = Some (playingAt 1)
  ∧ interval (playingAt 1) = Some (state (playingAt 1))
  ∧ (tick fiveSteps (playingAt 1) = None ↔ isPlaying (state (playingAt 1)) = false)
  ∧ (∀ inst', tick fiveSteps (playingAt 1) = Some inst' →
       state inst' = next fiveSteps (state (playingAt 1))).
Proof.
  split; [reflexivity |].
  exact (interval_tracks_render fiveSteps [Click "Play"; Tick] (playingAt 1)
           ltac:(reflexivity)).
Defined.

Lemma empty_steps_session_witness :
  steps noSteps = [] ∧ run noSteps mount [Click "Play"; Tick] = Some (stoppedAt 0)
  ∧ currentStepIndex (state (stoppedAt 0)) = 0
  ∧ index (steps noSteps) (currentStepIndex (state (stoppedAt 0))) = None
  ∧ Rendered (renderStep noSteps None 0 0) ∈ subnodes (render noSteps (state (stoppedAt 0)))
  ∧ isDisabled "Previous" (render noSteps (state (stoppedAt 0))) = true
  ∧ isDisabled "Next" (render noSteps (state (stoppedAt 0))) = false
  ∧ state (click noSteps "Next" (stoppedAt 0))
    = {| currentStepIndex := 0; isPlaying := false |}.
Proof.
  split; [reflexivity | split; [reflexivity |]].
  exact (empty_steps_session noSteps [Click "Play"; Tick] (stoppedAt 0)
           ltac:(reflexivity) ltac:(reflexivity)).
Defined.

Lemma step_buttons_keep_playing_flag_witness :
  currentStepIndex (state (playingAt 2)) <= len (steps fiveSteps) - 1
  ∧ isPlaying (state (click fiveSteps "Previous" (playingAt 2))) = true
  ∧ isPlaying (state (click fiveSteps "Next" (playingAt 2))) = true.
Proof.
  destruct (step_buttons_keep_playing_flag fiveSteps (playingAt 2)) as [Hprev Hnext].
  split; [discriminate | split; [exact Hprev |]].
  exact (Hnext ltac:(discriminate)).
Defined.

Lemma only_play_starts_playback_witness :
  fire fiveSteps mount (Click "Play") = Some (playingAt 0)
  ∧ isPlaying (state mount) = false
  ∧ isPlaying (state (playingAt 0)) = true
  ∧ Click "Play" = Click "Play".
Proof.
  split; [reflexivity | split; [reflexivity | split; [reflexivity |]]].
  exact (only_play_starts_playback fiveSteps mount (Click "Play") (playingAt 0)
           ltac:(reflexivity) ltac:(reflexivity) ltac:(reflexivity)).
Defined.

Lemma cursor_moves_one_step_witness :
  coherent (playingAt 3)
  ∧ fire fiveSteps (playingAt 3) Tick = Some (playingAt 4)
  ∧ (4 = 3 ∨ 4 = 3 + 1 ∨ 4 = 3 - 1 ∨ (Tick = Click "Restart" ∧ 4 = 0)).
Proof.
  split; [reflexivity | split; [reflexivity |]].
  exact (cursor_moves_one_step fiveSteps (playingAt 3) Tick (playingAt 4)
           ltac:(reflexivity) ltac:(reflexivity)).
Defined.

Lemma restart_resets_session_witness :
  run fiveSteps mount [Click "Play"; Tick; Tick] = Some (playingAt 2)
  ∧ click fiveSteps "Restart" (playingAt 2) = mount
  ∧ run fiveSteps mount ([Click "Play"; Tick; Tick] ++ Click "Restart" :: [Click "Next"])%list
    = run fiveSteps mount [Click "Next"].
Proof.
  split; [reflexivity |].
  exact (restart_resets_session fiveSteps [Click "Play"; Tick; Tick] [Click "Next"]
           (playingAt 2) ltac:(reflexivity)).
Defined.

Lemma pause_resume_witness :
  coherent (playingAt 2)
  ∧ click fiveSteps "Play" (click fiveSteps "Pause" (playingAt 2)) = playingAt 2
  ∧ tick fiveSteps (click fiveSteps "Pause" (playingAt 2)) = None.
Proof.
  destruct (pause_resume fiveSteps (playingAt 2) ltac:(reflexivity)) as [Htwice Hpause].
  split; [reflexivity | split; [exact Htwice |]].
  exact (Hpause ltac:(reflexivity)).
Defined.

Lemma autoplay_from_any_index_witness :
  2 <= len (steps fiveSteps) - 1
  ∧ run fiveSteps (stoppedAt 2) [Click "Play"; Tick; Tick] = Some (playingAt 4)
  ∧ run fiveSteps (stoppedAt 2) [Click "Play"; Tick; Tick; Tick] = Some (stoppedAt 4)
  ∧ run fiveSteps (stoppedAt 2) [Click "Play"; Tick; Tick; Tick; Tick] = None.
Proof.
  destruct (autoplay_from_any_index fiveSteps 2 ltac:(discriminate))
    as (Hplay & Hstop & Hover).
  split; [discriminate |].
  split; [exact (Hplay 2%nat ltac:(discriminate)) |].
  split; [exact Hstop |].
  exact (Hover 4%nat ltac:(reflexivity)).
Defined.


Lemma renderStep_receives_current_step_witness :
  0 < len (steps fiveSteps)
  ∧ run fiveSteps mount [Click "Next"] = Some (stoppedAt 1)
  ∧ ∃ step,
      steps fiveSteps !! Z.to_nat (currentStepIndex (state (stoppedAt 1))) = Some step
      ∧ 0 <= currentStepIndex (state (stoppedAt 1)) < len (steps fiveSteps)
      ∧ Rendered (renderStep fiveSteps (Some step)
                    (currentStepIndex (state (stoppedAt 1))) (len (steps fiveSteps)))
          ∈ subnodes (render fiveSteps (state (stoppedAt 1)))
      ∧ countRendered (render fiveSteps (state (stoppedAt 1))) = 1%nat.
Proof.
  split; [reflexivity | split; [reflexivity |]].
  exact (renderStep_receives_current_step fiveSteps [Click "Next"] (stoppedAt 1)
           ltac:(reflexivity) ltac:(reflexivity)).
Defined.

Lemma absent_label_click_ignored_witness :
  "Pause" ≠ toggleLabel (state mount)
  ∧ click fiveSteps "Pause" mount = mount.
Proof.
  split; [discriminate |].
  exact (absent_label_click_ignored fiveSteps "Pause" mount
           ltac:(discriminate) ltac:(discriminate) ltac:(discriminate) ltac:(discriminate)).
Defined.

Lemma stepping_saturates_witness :
  0 < len (steps fiveSteps)
  ∧ run fiveSteps mount (replicate 7 (Click "Next")) = Some (stoppedAt 4)
  ∧ run fiveSteps mount (replicate 7 (Click "Next") ++ replicate 2 (Click "Previous"))%list
    = Some (stoppedAt 2).
Proof.
  split; [reflexivity |].
  exact (stepping_saturates fiveSteps 7 2 ltac:(reflexivity)).
Defined.

Lemma previous_after_next_witness :
  0 <= 2 < len (steps fiveSteps) - 1
  ∧ previous (next fiveSteps {| currentStepIndex := 2; isPlaying := true |})
    = {| currentStepIndex := 2; isPlaying := true |}
  ∧ click fiveSteps "Previous" (click fiveSteps "Next" (playingAt 2)) = playingAt 2.
Proof.
  destruct (previous_after_next fiveSteps {| currentStepIndex := 2; isPlaying := true |}
              ltac:(split; [discriminate | reflexivity])) as (Hback & Hclicks).
  split; [split; [discriminate | reflexivity] |].
  split; [exact Hback |].
  exact (Hclicks (playingAt 2) ltac:(reflexivity) ltac:(reflexivity)).
Defined.

Lemma reachable_iff_in_range_witness :
  0 < len (steps fiveSteps)
  ∧ ((∃ evs, run fiveSteps mount evs = Some (playingAt 3))
     ↔ coherent (playingAt 3) ∧ inRange fiveSteps (state (playingAt 3))).
Proof.
  split; [reflexivity |].
  exact (reachable_iff_in_range fiveSteps (playingAt 3) ltac:(reflexivity)).
Defined.
